(** * ECG help desk server: record store, token registry and request handlers

    A shallow embedding of the Express server (readRecords, writeRecords,
    checkDeveloperAuth and the route handlers) together with the parts of
    the JavaScript host it calls: string trimming, the phone regular
    expression, parseInt, Date formatting, a Set of tokens and setTimeout.

    Conventions of the embedding
    - a JavaScript string is a [string] of code units below 256;
    - a JavaScript number holding an integer is a [Z] that stands for the
      double of that value (an integer that no double holds stands for no
      number); an arithmetic operation and parseInt round their exact
      result to the nearest double ([to_double]);
    - a header or a key of [localStorage] that is absent is [None]; a field
      of a JSON body is a [Value.t], a text or something else;
    - the data file is missing, inaccessible, or holds text; the text is not
      JSON, or it is JSON for a value that is not an array, or for an array
      of Records (objects with an integer [id] and five text fields);
      [fs.writeFile] fails on an inaccessible file and whenever the world
      says so ([write_error]);
    - handlers run in a state-and-exception monad over [world]; [handle]
      runs one handler from its first statement to its response.  The
      statements of the create and delete handlers that follow the await of
      [readRecords] are also defined on their own ([create_record],
      [remove_record]), as functions of what was loaded. *)

From Stdlib Require Import ZArith Lia Ascii String Sorted.
From stdpp Require Import prelude gmap strings pretty.

(** ** JavaScript strings *)

Definition code (c : ascii) : N := N_of_ascii c.

(** WhiteSpace and LineTerminator code units below 256: TAB, LF, VT, FF, CR,
    SP and NBSP. *)
Definition is_white (c : ascii) : bool :=
  ((9 <=? code c) && (code c <=? 13) || (code c =? 32) || (code c =? 160))%N.

Definition is_digit (c : ascii) : bool :=
  ((48 <=? code c) && (code c <=? 57))%N.

Definition is_empty (s : string) : bool :=
  match s with EmptyString => true | String _ _ => false end.

Fixpoint trimStart (s : string) : string :=
  match s with
  | EmptyString => EmptyString
  | String c s' => if is_white c then trimStart s' else s
  end.

Fixpoint trimEnd (s : string) : string :=
  match s with
  | EmptyString => EmptyString
  | String c s' =>
      let t := trimEnd s' in
      if is_white c && is_empty t then EmptyString else String c t
  end.

(** [String.prototype.trim] *)
Definition trim (s : string) : string := trimEnd (trimStart s).

(** [s.startsWith(p)], returning what follows the prefix. *)
Fixpoint after_prefix (p s : string) : option string :=
  match p, s with
  | EmptyString, _ => Some s
  | String a p', String b s' => if decide (a = b) then after_prefix p' s' else None
  | String _ _, EmptyString => None
  end.

Definition startsWith (s p : string) : bool :=
  match after_prefix p s with Some _ => true | None => false end.

(** [s.substring(n)] *)
Fixpoint substring_from (n : nat) (s : string) : string :=
  match n, s with
  | O, _ => s
  | S n', String _ s' => substring_from n' s'
  | S _, EmptyString => EmptyString
  end.

(** [s.slice(0, n)] *)
Fixpoint slice_to (n : nat) (s : string) : string :=
  match n, s with
  | S n', String c s' => String c (slice_to n' s')
  | _, _ => EmptyString
  end.

(** ** Regular expressions, as far as [phonePattern] needs them *)

Inductive regex :=
| Lit (s : string)
| Digit
| Alt (a b : regex)
| Seq (a b : regex)
| Rep (n : nat) (a : regex).

(** All the ways [r] can match a prefix of [s]: the list of what is left. *)
Fixpoint residues (r : regex) (s : string) : list string :=
  match r with
  | Lit p => match after_prefix p s with Some t => [t] | None => [] end
  | Digit =>
      match s with
      | String c t => if is_digit c then [t] else []
      | EmptyString => []
      end
  | Alt a b => residues a s ++ residues b s
  | Seq a b => flat_map (residues b) (residues a s)
  | Rep n a =>
      (fix rep (k : nat) (s : string) : list string :=
         match k with
         | O => [s]
         | S k' => flat_map (rep k') (residues a s)
         end) n s
  end.

(** [/^r$/.test(s)] *)
Definition regex_test (r : regex) (s : string) : bool :=
  existsb is_empty (residues r s).

(** [/^(\+233|0)[0-9]{9}$/] *)
Definition phonePattern : regex :=
  Seq (Alt (Lit "+233") (Lit "0")) (Rep 9 Digit).

(** ** Numbers

    A JavaScript number is an IEEE 754 double.  The numbers of the server
    hold integers: a [Z] stands for the double of that value.  [to_double]
    rounds an integer to the nearest double, ties to the even significand of
    53 bits. *)

Definition to_double (z : Z) : Z :=
  let a := Z.abs z in
  if (a <=? 2 ^ 53)%Z then z
  else
    let e := (Z.log2 a - 52)%Z in
    let q := (a / 2 ^ e)%Z in
    let r := (a mod 2 ^ e)%Z in
    let half := (2 ^ (e - 1))%Z in
    let q' :=
      if (r <? half)%Z then q
      else if (half <? r)%Z then (q + 1)%Z
      else if Z.even q then q else (q + 1)%Z in
    (Z.sgn z * (q' * 2 ^ e))%Z.

(** The result of a conversion to a Number: NaN, a finite double, or an
    infinity. *)
Inductive number :=
| NaN
| Finite (z : Z)
| Infinity (negative : bool).

(** The Number for the integer [z]; beyond the greatest double it is an
    infinity. *)
Definition Number_of (z : Z) : number :=
  let v := to_double z in
  if (2 ^ 1024 <=? Z.abs v)%Z then Infinity (z <? 0)%Z else Finite v.

(** ** parseInt without a radix *)

Definition digit_value (c : ascii) : option Z :=
  let n := code c in
  if ((48 <=? n) && (n <=? 57))%N then Some (Z.of_N n - 48)%Z
  else if ((97 <=? n) && (n <=? 122))%N then Some (Z.of_N n - 87)%Z
  else if ((65 <=? n) && (n <=? 90))%N then Some (Z.of_N n - 55)%Z
  else None.

(** The value of the longest prefix of radix-[R] digits, read after [acc];
    [None] while no digit has been read. *)
Fixpoint read_digits (R : Z) (acc : option Z) (s : string) : option Z :=
  match s with
  | EmptyString => acc
  | String c s' =>
      match digit_value c with
      | Some v =>
          if (v <? R)%Z
          then read_digits R (Some (default 0%Z acc * R + v)%Z) s'
          else acc
      | None => acc
      end
  end.

(** [parseInt(s)]: the integer the digits denote is converted to a Number,
    that is, rounded to the nearest double. *)
Definition parseInt (s : string) : number :=
  let S1 := trimStart s in
  let sign := if startsWith S1 "-" then (-1)%Z else 1%Z in
  let S2 :=
    if startsWith S1 "-" || startsWith S1 "+" then substring_from 1 S1 else S1 in
  let stripPrefix := startsWith S2 "0x" || startsWith S2 "0X" in
  let R := if stripPrefix then 16%Z else 10%Z in
  let S3 := if stripPrefix then substring_from 2 S2 else S2 in
  match read_digits R None S3 with
  | Some n => Number_of (sign * n)%Z
  | None => NaN
  end.

(** ** Dates

    A time value is a number of milliseconds since the epoch, in UTC.  A
    [Date] object holds a time value or NaN ([None], an invalid date). *)

Local Open Scope Z_scope.

Definition msPerDay : Z := 86400000.

Definition Day (t : Z) : Z := t / msPerDay.
Definition TimeWithinDay (t : Z) : Z := t mod msPerDay.

(** Year, month (1 to 12) and day of the month (1 to 31) of a day number, in
    the proleptic Gregorian calendar. *)
Definition civil_from_days (z : Z) : Z * Z * Z :=
  let z := z + 719468 in
  let era := z / 146097 in
  let doe := z - era * 146097 in
  let yoe := (doe - doe / 1460 + doe / 36524 - doe / 146096) / 365 in
  let doy := doe - (365 * yoe + yoe / 4 - yoe / 100) in
  let mp := (5 * doy + 2) / 153 in
  let d := doy - (153 * mp + 2) / 5 + 1 in
  let m := if mp <? 10 then mp + 3 else mp - 9 in
  let y := yoe + era * 400 in
  (if m <=? 2 then y + 1 else y, m, d).

Definition days_from_civil (y m d : Z) : Z :=
  let y := if m <=? 2 then y - 1 else y in
  let era := y / 400 in
  let yoe := y - era * 400 in
  let mp := if 2 <? m then m - 3 else m + 9 in
  let doy := (153 * mp + 2) / 5 + d - 1 in
  let doe := yoe * 365 + yoe / 4 - yoe / 100 + doy in
  era * 146097 + doe - 719468.

Definition YearFromTime (t : Z) : Z := (civil_from_days (Day t)).1.1.
Definition MonthFromTime (t : Z) : Z := (civil_from_days (Day t)).1.2.
Definition DateFromTime (t : Z) : Z := (civil_from_days (Day t)).2.
(** 0 is Sunday; the epoch was a Thursday. *)
Definition WeekDay (t : Z) : Z := (Day t + 4) mod 7.

(** Decimal digits of [n], zero-padded on the left to at least [w]. *)
Definition pad (w : nat) (n : Z) : string :=
  let s := pretty (Z.abs n) in
  String.app (string_of_list_ascii (replicate (w - String.length s) "0"%char)) s.

Definition RangeError_time : string := "Invalid time value".

(** [Date.prototype.toISOString]; throws a RangeError on an invalid date. *)
Definition toISOString (d : option Z) : string + string :=
  match d with
  | None => inl RangeError_time
  | Some t =>
      let y := YearFromTime t in
      let w := TimeWithinDay t in
      let year :=
        if (0 <=? y) && (y <=? 9999) then pad 4 y
        else (if y <? 0 then "-" else "+") +:+ pad 6 y in
      inr (year +:+ "-" +:+ pad 2 (MonthFromTime t) +:+ "-" +:+ pad 2 (DateFromTime t)
           +:+ "T" +:+ pad 2 (w / 3600000) +:+ ":" +:+ pad 2 (w / 60000 mod 60)
           +:+ ":" +:+ pad 2 (w / 1000 mod 60) +:+ "." +:+ pad 3 (w mod 1000) +:+ "Z")
  end.

Definition dayName (n : Z) : string :=
  nth (Z.to_nat n) ["Sun"; "Mon"; "Tue"; "Wed"; "Thu"; "Fri"; "Sat"] "".

Definition monthName (n : Z) : string :=
  nth (Z.to_nat (n - 1))
    ["Jan"; "Feb"; "Mar"; "Apr"; "May"; "Jun";
     "Jul"; "Aug"; "Sep"; "Oct"; "Nov"; "Dec"] "".

(** [Date.prototype.toDateString] of a date whose local time is [offset]
    milliseconds ahead of UTC. *)
Definition toDateString (offset : Z -> Z) (d : option Z) : string :=
  match d with
  | None => "Invalid Date"
  | Some t =>
      let lt := t + offset t in
      let y := YearFromTime lt in
      dayName (WeekDay lt) +:+ " " +:+ monthName (MonthFromTime lt) +:+ " "
        +:+ pad 2 (DateFromTime lt) +:+ " "
        +:+ (if y <? 0 then "-" else "") +:+ pad 4 y
  end.

(** A time value outside the range of [Date] is NaN. *)
Definition TimeClip (t : Z) : option Z :=
  if Z.abs t <=? 8640000000000000 then Some t else None.

(** *** A reader for the format [toISOString] writes

    The host's [Date.parse] accepts more than this; the handlers below take
    the parser as a parameter, and this reader instantiates it in closed
    examples. *)

Fixpoint read_number (n : nat) (acc : Z) (s : string) : option (Z * string) :=
  match n with
  | O => Some (acc, s)
  | S n' =>
      match s with
      | String c s' =>
          if is_digit c then read_number n' (acc * 10 + (Z.of_N (code c) - 48)) s'
          else None
      | EmptyString => None
      end
  end.

Definition read_field (n : nat) (sep : string) (s : string) : option (Z * string) :=
  match read_number n 0 s with
  | Some (v, s') =>
      match after_prefix sep s' with
      | Some s'' => Some (v, s'')
      | None => None
      end
  | None => None
  end.

Definition iso_parse (s : string) : option Z :=
  '(y, s) ← read_field 4 "-" s;
  '(m, s) ← read_field 2 "-" s;
  '(d, s) ← read_field 2 "T" s;
  '(hh, s) ← read_field 2 ":" s;
  '(mm, s) ← read_field 2 ":" s;
  '(ss, s) ← read_field 2 "." s;
  '(ms, s) ← read_field 3 "Z" s;
  if is_empty s
     && (1 <=? m) && (m <=? 12) && (1 <=? d) && (d <=? 31)
     && (hh <? 24) && (mm <? 60) && (ss <? 60)
  then Some (days_from_civil y m d * msPerDay
             + hh * 3600000 + mm * 60000 + ss * 1000 + ms)
  else None.

(** ** Data model *)

(** A stored Record. *)
Record record := {
  id : Z;
  vendorName : string;
  location : string;
  phone : string;
  issue : string;
  date : string
}.

(** A value of a JSON request body, as the handlers observe it: a text, or
    [undefined] (the property is not sent), or null, or any other value (a
    number, a boolean, an array, an object), of which they see whether it
    counts as true and what [String] makes of it, if it makes anything. *)
Module Value.

Inductive t :=
| Text (s : string)
| Undefined
| Null
| Other (truthy : bool) (shown : option string).

(** [!x] *)
Definition falsy (x : t) : bool :=
  match x with
  | Text s => is_empty s
  | Undefined | Null => true
  | Other truthy _ => negb truthy
  end.

(** [String(x)]; a TypeError for an object that has no usable [toString]. *)
Definition ToString (x : t) : string + string :=
  match x with
  | Text s => inr s
  | Undefined => inr "undefined"%string
  | Null => inr "null"%string
  | Other _ (Some s) => inr s
  | Other _ None => inl "Cannot convert object to primitive value"%string
  end.

(** [x.trim()], for the variable [name]; a TypeError unless [x] is a text. *)
Definition trim (name : string) (x : t) : string + string :=
  match x with
  | Text s => inr (trim s)
  | Undefined => inl "Cannot read properties of undefined (reading 'trim')"%string
  | Null => inl "Cannot read properties of null (reading 'trim')"%string
  | Other _ _ => inl (name +:+ ".trim is not a function")%string
  end.

End Value.

(** The JSON body of a create request. *)
Module Body.
Record t := {
  vendorName : Value.t;
  location : Value.t;
  phone : Value.t;
  issue : Value.t
}.
End Body.

(** What [JSON.parse] makes of the data file: an array of Records, or a
    value that is not an array, of which the handlers see whether it is null
    and whether its [length] is above 0 (a string that is not empty, an
    object with such a property). *)
Inductive collection :=
| Array (rs : list record)
| Null
| NonArray (length_positive : bool).

(** The text of the data file, up to JSON encoding: the serialisation of a
    value, or text that [JSON.parse] rejects.  [Json c] is the text that
    [JSON.parse] reads as [c], so the ids of an array are the doubles that
    the numerals of the text denote. *)
Inductive text :=
| Json (c : collection)
| Garbled (raw : string).

Inductive disk :=
| Missing
| Denied
| Holds (t : text).

(** File operations, as they are logged in the world. *)
Inductive io :=
| ReadFile
| WriteFile (t : text).

(** The state a handler runs in: the clock, the data file, the error with
    which the file system rejects a write of it (if it does: a read-only or
    full file system), the history of file operations (a write is logged when
    it is attempted), the Set of valid tokens and the pending timeouts, each
    the due time and the token its callback deletes. *)
Record world := {
  now : Z;
  file : disk;
  write_error : option string;
  io_log : list io;
  validTokens : gset string;
  timers : list (Z * string)
}.

Inductive exn :=
| Error (message : string).

Definition message (e : exn) : string :=
  match e with Error m => m end.

Inductive json :=
| Message (msg : string)
| Failure (msg error : string)
| Granted (msg token : string)
| Records (records : collection)
| Created (msg : string) (r : record)
| Stats (total today thisMonth : Z)
| Health (status msg : string).

Record response := { status : Z; body : json }.

(** ** The monad of handlers: state and exceptions *)

Definition M (A : Type) : Type := world -> (exn + A) * world.

Definition ret {A} (a : A) : M A := fun w => (inr a, w).

Definition throw {A} (e : exn) : M A := fun w => (inl e, w).

Definition bind {A B} (m : M A) (k : A -> M B) : M B := fun w =>
  match m w with
  | (inr a, w') => k a w'
  | (inl e, w') => (inl e, w')
  end.

Definition try_catch {A} (m : M A) (h : exn -> M A) : M A := fun w =>
  match m w with
  | (inr a, w') => (inr a, w')
  | (inl e, w') => h e w'
  end.

Notation "'let*' x ':=' m 'in' k" := (bind m (fun x => k))
  (at level 10, x pattern, m at level 100, k at level 200).

Definition lift {A} (r : string + A) : M A :=
  match r with
  | inr a => ret a
  | inl m => throw (Error m)
  end.

Definition json_res (s : Z) (b : json) : M response :=
  ret {| status := s; body := b |}.

(** ** Host operations on the world *)

Definition log (o : io) (w : world) : world :=
  {| now := now w; file := file w; write_error := write_error w;
     io_log := io_log w ++ [o];
     validTokens := validTokens w; timers := timers w |}.

Definition set_file (d : disk) (w : world) : world :=
  {| now := now w; file := d; write_error := write_error w;
     io_log := io_log w;
     validTokens := validTokens w; timers := timers w |}.

Definition set_write_error (e : option string) (w : world) : world :=
  {| now := now w; file := file w; write_error := e;
     io_log := io_log w;
     validTokens := validTokens w; timers := timers w |}.

Definition set_tokens (s : gset string) (w : world) : world :=
  {| now := now w; file := file w; write_error := write_error w;
     io_log := io_log w;
     validTokens := s; timers := timers w |}.

Definition set_timers (l : list (Z * string)) (w : world) : world :=
  {| now := now w; file := file w; write_error := write_error w;
     io_log := io_log w;
     validTokens := validTokens w; timers := l |}.

Definition set_now (t : Z) (w : world) : world :=
  {| now := t; file := file w; write_error := write_error w;
     io_log := io_log w;
     validTokens := validTokens w; timers := timers w |}.

(** [fs.readFile(DATA_FILE, 'utf8')] *)
Definition fs_readFile : M text := fun w =>
  match file w with
  | Holds t => (inr t, log ReadFile w)
  | Missing => (inl (Error "ENOENT: no such file or directory"), log ReadFile w)
  | Denied => (inl (Error "EACCES: permission denied"), log ReadFile w)
  end.

(** The error of a write of the data file, if it fails: the file is
    inaccessible, or the file system rejects the write. *)
Definition write_failure (w : world) : option string :=
  match file w with
  | Denied => Some "EACCES: permission denied"%string
  | Missing | Holds _ => write_error w
  end.

(** [fs.writeFile(DATA_FILE, t)]: the file holds [t], or the write fails and
    the file is as it was. *)
Definition fs_writeFile (t : text) : M unit := fun w =>
  match write_failure w with
  | Some e => (inl (Error e), log (WriteFile t) w)
  | None => (inr tt, set_file (Holds t) (log (WriteFile t) w))
  end.

(** [fs.access(DATA_FILE)]: the file exists. *)
Definition fs_access : M unit := fun w =>
  match file w with
  | Missing => (inl (Error "ENOENT: no such file or directory"), w)
  | _ => (inr tt, w)
  end.

Definition JSON_parse (t : text) : M collection :=
  match t with
  | Json c => ret c
  | Garbled _ => throw (Error "Unexpected token in JSON")
  end.

Definition JSON_stringify (rs : list record) : text := Json (Array rs).

Definition Date_now : M Z := fun w => (inr (now w), w).

Definition validTokens_add (tok : string) : M unit := fun w =>
  (inr tt, set_tokens ({[tok]} ∪ validTokens w) w).

Definition validTokens_has (tok : string) : M bool := fun w =>
  (inr (bool_decide (tok ∈ validTokens w)), w).

(** [setTimeout(() => validTokens.delete(tok), delay)] *)
Definition setTimeout_delete (tok : string) (delay : Z) : M unit := fun w =>
  (inr tt, set_timers (timers w ++ [(now w + delay, tok)]) w).

(** Time passes: the clock moves on and the callbacks of the timeouts that
    are due run, each deleting its token. *)
Definition is_due (t : Z) (tm : Z * string) : bool := tm.1 <=? t.

Definition run_timers (w : world) : world :=
  let ready := filter (fun tm => is_due (now w) tm = true) (timers w) in
  let waiting := filter (fun tm => is_due (now w) tm = false) (timers w) in
  set_timers waiting
    (set_tokens (foldl (fun s tm => s ∖ {[tm.2]}) (validTokens w) ready) w).

Definition elapse (dt : N) (w : world) : world :=
  run_timers (set_now (now w + Z.of_N dt) w).

(** ** JavaScript values of the request *)

(** [!x] for a header: a string or undefined *)
Definition falsy (x : option string) : bool :=
  match x with
  | Some s => is_empty s
  | None => true
  end.

Definition ToString (x : option string) : string :=
  match x with
  | Some s => s
  | None => "undefined"
  end.

(** [l.includes(x)], for a list of texts *)
Definition includes (l : list string) (x : Value.t) : bool :=
  match x with
  | Value.Text s => bool_decide (s ∈ l)
  | Value.Undefined | Value.Null | Value.Other _ _ => false
  end.

(** [records.name], for a method of arrays: a TypeError unless [records] is
    an array. *)
Definition array_method (name : string) (records : collection)
  : M (list record) :=
  match records with
  | Array rs => ret rs
  | Null =>
      throw (Error ("Cannot read properties of null (reading '" +:+ name +:+ "')"))
  | NonArray _ => throw (Error ("records." +:+ name +:+ " is not a function"))
  end.

(** [x || 0] for a number *)
Definition or_zero (x : Z) : Z := if x =? 0 then 0 else x.

(** [l.findIndex(p)]; [None] is -1. *)
Fixpoint findIndex {A} (p : A -> bool) (l : list A) : option nat :=
  match l with
  | [] => None
  | x :: l' => if p x then Some O else S <$> findIndex p l'
  end.

(** [x === n] for a finite number [x] and a result of parseInt. *)
Definition strict_eq (x : Z) (n : number) : bool :=
  match n with
  | Finite v => x =? v
  | NaN | Infinity _ => false
  end.

(** What the host leaves to the implementation: [Date.parse], the offset of
    local time from UTC at a given instant, in milliseconds, and the number
    of arguments beyond which a call overflows the stack. *)
Record host := {
  Date_parse : string -> option Z;
  localOffset : Z -> Z;
  max_arguments : N
}.

(** ** The server *)

Definition DEVELOPER_CODES : list string :=
  ["letmein"; "DEV-ECG-2024-ALPHA"; "ECG-DEV-ADMIN-001"; "ECG-IT-DEV-ACCESS"].

(** [24 * 60 * 60 * 1000] *)
Definition token_lifetime : Z := 24 * 60 * 60 * 1000.

(** The token of a login at time [t] whose random suffix is [random]. *)
Definition make_token (t : Z) (random : string) : string :=
  "dev_token_" +:+ pretty t +:+ "_" +:+ random.

Definition readRecords : M collection :=
  try_catch
    (let* data := fs_readFile in
     JSON_parse data)
    (fun _ => ret (Array [])).

Definition writeRecords (records : list record) : M unit :=
  fs_writeFile (JSON_stringify records).

Definition initializeDataFile : M unit :=
  try_catch fs_access (fun _ => fs_writeFile (JSON_stringify [])).

(** [app.post('/api/dev-login')]; [random] is what
    [Math.random().toString(36).substr(2, 9)] evaluates to. *)
Definition dev_login (code : Value.t) (random : string) : M response :=
  try_catch
    (if Value.falsy code || negb (includes DEVELOPER_CODES code) then
       json_res 401 (Message "Invalid developer code")
     else
       let* t := Date_now in
       let token := make_token t random in
       let* _ := validTokens_add token in
       let* _ := setTimeout_delete token token_lifetime in
       json_res 200 (Granted "Developer access granted" token))
    (fun error => json_res 500 (Failure "Server error" (message error))).

(** The token [checkDeveloperAuth] extracts; [None] is null. *)
Definition bearer_token (authHeader : option string) : option string :=
  if negb (falsy authHeader) && startsWith (ToString authHeader) "Bearer "
  then Some (substring_from 7 (ToString authHeader))
  else None.

Definition checkDeveloperAuth (authHeader : option string) (next : M response)
  : M response :=
  let token := bearer_token authHeader in
  let* has :=
    match token with
    | Some tok => validTokens_has tok
    | None => ret false
    end in
  if falsy token || negb has then
    json_res 401 (Message "Unauthorized - Developer access required")
  else next.

(** [app.get('/api/records')], after the middleware *)
Definition get_records : M response :=
  try_catch
    (let* records := readRecords in
     json_res 200 (Records records))
    (fun error => json_res 500 (Failure "Error reading records" (message error))).

Definition RangeError_stack : string := "Maximum call stack size exceeded".

(** [records.length > 0 ? Math.max(...records.map(r => r.id || 0)) + 1 : 1].
    The length of null cannot be read and only an array has [map]; the
    spread call overflows the stack when the array is too long; the sum is
    rounded to a double. *)
Definition next_id (h : host) (records : collection) : M Z :=
  match records with
  | Null => throw (Error "Cannot read properties of null (reading 'length')")
  | NonArray true => throw (Error "records.map is not a function")
  | NonArray false => ret 1
  | Array rs =>
      match map (fun r => or_zero (id r)) rs with
      | [] => ret 1
      | x :: xs =>
          if (max_arguments h <? N.of_nat (length (x :: xs)))%N
          then throw (Error RangeError_stack)
          else ret (to_double (foldl Z.max x xs + 1))
      end
  end.

(** The create handler from the point where [readRecords] has returned
    [records]: the new record is built, pushed and written. *)
Definition create_record (h : host) (b : Body.t) (records : collection)
  : M response :=
  let* id' := next_id h records in
  let* vendorName' := lift (Value.trim "vendorName" (Body.vendorName b)) in
  let* location' := lift (Value.trim "location" (Body.location b)) in
  let* phone' := lift (Value.trim "phone" (Body.phone b)) in
  let* issue' := lift (Value.trim "issue" (Body.issue b)) in
  let* t := Date_now in
  let* date' := lift (toISOString (Some t)) in
  let newRecord :=
    {| id := id';
       vendorName := vendorName';
       location := location';
       phone := phone';
       issue := issue';
       date := date' |} in
  let* rs := array_method "push" records in
  let records := rs ++ [newRecord] in
  let* _ := writeRecords records in
  json_res 201 (Created "Record created successfully" newRecord).

Definition create_failed (error : exn) : M response :=
  json_res 500 (Failure "Error creating record" (message error)).

(** [app.post('/api/records')] *)
Definition post_records (h : host) (b : Body.t) : M response :=
  let vendorName := Body.vendorName b in
  let location := Body.location b in
  let phone := Body.phone b in
  let issue := Body.issue b in
  try_catch
    (if Value.falsy vendorName || Value.falsy location
        || Value.falsy phone || Value.falsy issue then
       json_res 400 (Message "All fields are required")
     else
       let* phone' := lift (Value.ToString phone) in
       if negb (regex_test phonePattern phone') then
         json_res 400 (Message "Invalid Ghanaian phone number format")
       else
         let* records := readRecords in
         create_record h b records)
    create_failed.

(** The create handler, resumed when [readRecords] has returned [records]:
    what is left of the [try] block, and the [catch]. *)
Definition post_records_resumed (h : host) (b : Body.t) (records : collection)
  : M response :=
  try_catch (create_record h b records) create_failed.

(** The delete handler from the point where [readRecords] has returned
    [records]. *)
Definition remove_record (recordId : number) (records : collection)
  : M response :=
  let* rs := array_method "findIndex" records in
  match findIndex (fun r => strict_eq (id r) recordId) rs with
  | None => json_res 404 (Message "Record not found")
  | Some index =>
      let records := delete index rs in
      let* _ := writeRecords records in
      json_res 200 (Message "Record deleted successfully")
  end.

Definition delete_failed (error : exn) : M response :=
  json_res 500 (Failure "Error deleting record" (message error)).

(** The delete handler, resumed when [readRecords] has returned [records]. *)
Definition delete_record_resumed (recordId : number) (records : collection)
  : M response :=
  try_catch (remove_record recordId records) delete_failed.

(** [app.delete('/api/records/:id')], after the middleware *)
Definition delete_record (param : string) : M response :=
  try_catch
    (let recordId := parseInt param in
     let* records := readRecords in
     remove_record recordId records)
    delete_failed.

(** [records.forEach(f)], where the callback updates two counters *)
Fixpoint forEach (records : list record) (f : record -> Z * Z -> M (Z * Z))
    (counts : Z * Z) : M (Z * Z) :=
  match records with
  | [] => ret counts
  | r :: rest =>
      let* counts' := f r counts in
      forEach rest f counts'
  end.

(** [app.get('/api/health')] *)
Definition get_health : M response :=
  json_res 200 (Health "ok" "ECG Help Desk API is running").

(** *** Requests and events *)

Inductive request :=
| POST_dev_login (code : Value.t) (random : string)
| GET_records (authorization : option string)
| POST_records (b : Body.t)
| DELETE_records (authorization : option string) (param : string)
| GET_stats (authorization : option string)
| GET_health.

(** What happens to a running server: a request arrives and is answered,
    time passes, or the file system starts or stops rejecting writes. *)
Inductive event :=
| Request (r : request)
| Elapse (dt : N)
| Fault (e : option string).

(** [startServer] at time [t0] on a data file in state [d] that can be
    written: a fresh process, with no token and no timer. *)
Definition boot (t0 : Z) (d : disk) : world :=
  (initializeDataFile
     {| now := t0; file := d; write_error := None; io_log := [];
        validTokens := ∅; timers := [] |}).2.

(** ** Vocabulary of the properties *)

(** What [readRecords] loads from the data file. *)
Definition loaded (w : world) : collection :=
  match file w with
  | Holds (Json c) => c
  | Missing | Denied | Holds (Garbled _) => Array []
  end.

(** The records [readRecords] loads, when it loads an array. *)
Definition stored (w : world) : list record :=
  match loaded w with
  | Array rs => rs
  | Null | NonArray _ => []
  end.

Fixpoint all_digits (s : string) : bool :=
  match s with
  | EmptyString => true
  | String c s' => is_digit c && all_digits s'
  end.

(** The phone format in words: [+233] or a leading [0], then exactly nine
    digits. *)
Definition phone_format (s : string) : Prop :=
  exists ds, (s = "+233" +:+ ds \/ s = "0" +:+ ds)
             /\ String.length ds = 9%nat /\ all_digits ds = true.

(** A field that is missing or the empty string, as it was sent. *)
Definition absent_or_empty (x : Value.t) : Prop :=
  x = Value.Undefined \/ x = Value.Text "".

(** A field that is missing, or a text that is empty after trimming, or a
    value that is not a text and counts as false (null, 0, false). *)
Definition blank (x : Value.t) : Prop :=
  match x with
  | Value.Text s => trim s = ""%string
  | Value.Undefined | Value.Null => True
  | Value.Other truthy _ => truthy = false
  end.

(** The phone, as the pattern is tested on it, is not in the format. *)
Definition phone_mismatch (x : Value.t) : Prop :=
  exists s, Value.ToString x = inr s /\ ~ phone_format s.

(** The two guards of the create handler: one of them answers 400. *)
Definition rejects (b : Body.t) : bool :=
  Value.falsy (Body.vendorName b) || Value.falsy (Body.location b)
  || Value.falsy (Body.phone b) || Value.falsy (Body.issue b)
  || match Value.ToString (Body.phone b) with
     | inr s => negb (regex_test phonePattern s)
     | inl _ => false
     end.

(** The body of four texts. *)
Definition body_of (v l p i : string) : Body.t :=
  {| Body.vendorName := Value.Text v; Body.location := Value.Text l;
     Body.phone := Value.Text p; Body.issue := Value.Text i |}.

(** An integer that doubles hold exactly, together with its neighbours. *)
Definition safe (z : Z) : Prop := Z.abs z < 2 ^ 53.

Definition iso_of (t : Z) : string :=
  match toISOString (Some t) with
  | inr s => s
  | inl _ => ""
  end.

(** The id the create handler computes on an array that it can spread. *)
Definition fresh_id (rs : list record) : Z :=
  match map (fun r => or_zero (id r)) rs with
  | [] => 1
  | x :: xs => to_double (foldl Z.max x xs + 1)
  end.

(** The array is short enough to be spread into the arguments of a call. *)
Definition spreadable (h : host) (rs : list record) : Prop :=
  (N.of_nat (length rs) <= max_arguments h)%N.

(** The record the create handler builds at time [t] from four texts, with
    the id [n]. *)
Definition created (n : Z) (t : Z) (v l p i : string) : record :=
  {| id := n;
     vendorName := trim v;
     location := trim l;
     phone := trim p;
     issue := trim i;
     date := iso_of t |}.

(** The Authorization header carries the Bearer scheme and a valid token. *)
Definition authorized (w : world) (auth : option string) : Prop :=
  exists tok, auth = Some ("Bearer " +:+ tok) /\ tok <> ""%string
              /\ tok ∈ validTokens w.




(** The number a string of decimal digits denotes, read after [acc]. *)
Fixpoint decimal_value (acc : Z) (ds : string) : Z :=
  match ds with
  | EmptyString => acc
  | String c ds' => decimal_value (acc * 10 + (Z.of_N (code c) - 48)) ds'
  end.

Definition starts_with_digit (s : string) : bool :=
  match s with
  | String c _ => is_digit c
  | EmptyString => false
  end.

Definition hex_prefixed (s : string) : bool :=
  startsWith s "0x" || startsWith s "0X".





(** What a handler other than the login leaves alone: the clock and the
    token registry. *)
Definition same_registry (w w' : world) : Prop :=
  now w' = now w /\ validTokens w' = validTokens w /\ timers w' = timers w.

(** How what the file holds changes in one request: not at all, or an
    array gets a record at its end, with the id computed on the array, or
    it loses one record. *)
Inductive store_change (c : collection) : collection -> Prop :=
| kept : store_change c c
| appended rs r :
    c = Array rs -> id r = fresh_id rs -> store_change c (Array (rs ++ [r]))
| removed before r after :
    c = Array (before ++ r :: after) -> store_change c (Array (before ++ after)).

Fixpoint no_underscore (s : string) : bool :=
  match s with
  | EmptyString => true
  | String c s' => negb (Ascii.eqb c "_") && no_underscore s'
  end.

(** Every valid token and every pending timeout comes from a login that
    has happened, and no pending timeout is due. *)
Definition registry_ok (w : world) : Prop :=
  (forall tok, tok ∈ validTokens w ->
     exists t random, tok = make_token t random /\ t <= now w)
  /\ (forall due tok, In (due, tok) (timers w) ->
        (exists random, tok = make_token (due - token_lifetime) random)
        /\ due - token_lifetime <= now w < due).

(** The token [tok] of a login at time [T], as the world moves on: valid
    with its timeout pending until [T + token_lifetime], absent after. *)
Definition tracks (T : Z) (tok : string) (w : world) : Prop :=
  T <= now w
  /\ (now w < T + token_lifetime ->
      tok ∈ validTokens w /\ In (T + token_lifetime, tok) (timers w))
  /\ (T + token_lifetime <= now w -> tok ∉ validTokens w).

(** *** Example data *)

(** A host two hours ahead of UTC. *)
Definition plus2h (t : Z) : Z := 7200000.

Definition utc (t : Z) : Z := 0.

(** 2026-10-31T23:00:00.000Z *)
Definition late_october : Z := 1793487600000.

Definition ama : Body.t := body_of "Ama" "Accra" "0501234567" "No power".

Definition kofi : Body.t := body_of " Kofi " "Kumasi" "+233241234567" "Meter fault".

Definition spaces : Body.t := body_of "   " "Accra" "0501234567" "No power".

Definition a_token : string := "dev_token_1793487600000_k3j9x".

Definition a_header : option string := Some ("Bearer " +:+ a_token).

Definition record_of (n : Z) (d : string) : record :=
  {| id := n; vendorName := "Ama"; location := "Accra";
     phone := "0501234567"; issue := "No power"; date := d |}.

(** A world with one valid token and the given collection on disk, which
    can be written. *)
Definition world_with (rs : list record) : world :=
  {| now := late_october;
     file := Holds (JSON_stringify rs);
     write_error := None;
     io_log := [];
     validTokens := {[a_token]};
     timers := [(late_october + token_lifetime, a_token)] |}.

(** The same on a file system that rejects writes. *)
Definition read_only : string := "EROFS: read-only file system".


(** A record is submitted, a developer logs in, and eleven hours pass. *)
Definition a_day : list event :=
  [Request (POST_records ama);
   Request (POST_dev_login (Value.Text "letmein") "k3j9x"%string);
   Elapse 39600000].

(** A developer logs in; three records are submitted, the second while the
    file system rejects writes; the first record is deleted and one more is
    submitted. *)
Definition a_busy_hour : list event :=
  [Request (POST_dev_login (Value.Text "letmein") "k3j9x"%string);
   Request (POST_records ama);
   Fault (Some read_only);
   Request (POST_records kofi);
   Fault None;
   Request (POST_records kofi);
   Request (DELETE_records a_header "1");
   Elapse 60000;
   Request (POST_records ama)].

(** [new Date(s)] *)
Definition new_Date (h : host) (s : string) : option Z :=
  match Date_parse h s with
  | Some t => TimeClip t
  | None => None
  end.

(** The body of the [forEach] callback of the stats handler, on the two
    counters. *)
Definition count_record (h : host) (today thisMonth : string) (record : record)
    (counts : Z * Z) : M (Z * Z) :=
  let recordDate := new_Date h (date record) in
  let todayCount :=
    if decide (toDateString (localOffset h) recordDate = today)
    then counts.1 + 1 else counts.1 in
  let* iso := lift (toISOString recordDate) in
  let monthCount :=
    if decide (slice_to 7 iso = thisMonth)
    then counts.2 + 1 else counts.2 in
  ret (todayCount, monthCount).

(** [app.get('/api/stats')], after the middleware *)
Definition get_stats (h : host) : M response :=
  try_catch
    (let* records := readRecords in
     let* t := Date_now in
     let today := toDateString (localOffset h) (Some t) in
     let* iso := lift (toISOString (Some t)) in
     let thisMonth := slice_to 7 iso in
     let* rs := array_method "forEach" records in
     let* counts := forEach rs (count_record h today thisMonth) (0, 0) in
     json_res 200 (Stats (Z.of_nat (length rs)) counts.1 counts.2))
    (fun error => json_res 500 (Failure "Error getting statistics" (message error))).

Definition handle (h : host) (r : request) : M response :=
  match r with
  | POST_dev_login code random => dev_login code random
  | GET_records auth => checkDeveloperAuth auth get_records
  | POST_records b => post_records h b
  | DELETE_records auth param => checkDeveloperAuth auth (delete_record param)
  | GET_stats auth => checkDeveloperAuth auth (get_stats h)
  | GET_health => get_health
  end.

Definition step (h : host) (w : world) (e : event) : world :=
  match e with
  | Request r => (handle h r w).2
  | Elapse dt => elapse dt w
  | Fault e => set_write_error e w
  end.

Definition run (h : host) (es : list event) (w : world) : world :=
  foldl (step h) w es.

(** The operation behind the middleware, for the routes that have it. *)
Definition privileged (h : host) (r : request)
  : option (option string * M response) :=
  match r with
  | GET_records auth => Some (auth, get_records)
  | DELETE_records auth param => Some (auth, delete_record param)
  | GET_stats auth => Some (auth, get_stats h)
  | POST_dev_login _ _ | POST_records _ | GET_health => None
  end.

(** The record's date is on the local calendar day of [t]. *)
Definition same_local_day (h : host) (t : Z) (r : record) : bool :=
  bool_decide (toDateString (localOffset h) (new_Date h (date r))
               = toDateString (localOffset h) (Some t)).

(** The record's date is in the UTC calendar month of [t]: the first seven
    characters of the two ISO strings agree (year and month, for the years
    0 to 9999). *)
Definition same_utc_month (h : host) (t : Z) (r : record) : bool :=
  match toISOString (new_Date h (date r)) with
  | inr iso => bool_decide (slice_to 7 iso = slice_to 7 (iso_of t))
  | inl _ => false
  end.

(** Hosts that read ISO dates, in UTC and two hours ahead of it, and that
    take calls of up to 100000 arguments. *)
Definition host_utc : host :=
  {| Date_parse := iso_parse; localOffset := utc; max_arguments := 100000 |}.

Definition host_plus2h : host :=
  {| Date_parse := iso_parse; localOffset := plus2h; max_arguments := 100000 |}.

(** One record is submitted and the record before it is deleted, [n]
    times over, by a developer who holds the token [a_token]: the ids
    [first], [first + 1], ... are deleted in turn. *)
Fixpoint turnover (n : nat) (first : Z) : list event :=
  match n with
  | O => []
  | S n' =>
      Request (POST_records ama)
      :: Request (DELETE_records a_header (pretty first))
      :: turnover n' (first + 1)
  end.

(** A developer logs in and a record is submitted; then, 2^53 - 1 times,
    one more is submitted and the one before it is deleted; then one more is
    submitted. *)
Definition long_run : list event :=
  Request (POST_dev_login (Value.Text "letmein") "k3j9x"%string)
  :: Request (POST_records ama)
  :: turnover (Z.to_nat (2 ^ 53 - 1)) 1
  ++ [Request (POST_records ama)].

(** ** Vocabulary of the further properties *)

(** No character of [s] is white space. *)
Fixpoint no_white (s : string) : bool :=
  match s with
  | EmptyString => true
  | String c s' => negb (is_white c) && no_white s'
  end.

(** A record as the create handler writes it at a time between [lo] and [hi]. *)
Definition written_by_server (lo hi : Z) (r : record) : Prop :=
  phone_format (phone r)
  /\ trim (vendorName r) = vendorName r
  /\ trim (location r) = location r
  /\ trim (issue r) = issue r
  /\ exists t, lo <= t <= hi /\ toISOString (Some t) = inr (date r).

(** The create requests of a sequence of events. *)
Definition is_create (e : event) : bool :=
  match e with
  | Request (POST_records _) => true
  | _ => false
  end.

Definition creates (es : list event) : nat := length (List.filter is_create es).

(** The ids of the array [c] are in ascending order, between 1 and [B]. *)
Definition ids_within (B : Z) (c : collection) : Prop :=
  exists rs, c = Array rs
             /\ StronglySorted Z.lt (map id rs)
             /\ Forall (fun r => 1 <= id r <= B) rs.

(** A collection of one record, a developer who holds [a_token], and a
    file that can be written. *)
Definition one_record (first : Z) (w : world) : Prop :=
  (exists r, file w = Holds (JSON_stringify [r]) /\ id r = first)
  /\ write_error w = None
  /\ a_token ∈ validTokens w.

(** Every request of the events [es], handled from the world [w] on, is
    answered 200 or 201. *)
Fixpoint all_succeed (h : host) (es : list event) (w : world) : Prop :=
  match es with
  | [] => True
  | e :: es' =>
      match e with
      | Request r =>
          exists resp, (handle h r w).1 = inr resp
                       /\ (status resp = 200 \/ status resp = 201)
      | Elapse _ | Fault _ => True
      end
      /\ all_succeed h es' (step h w e)
  end.

(** Every valid token has a pending timeout. *)
Definition every_token_expires (w : world) : Prop :=
  forall tok, tok ∈ validTokens w -> exists due, In (due, tok) (timers w).

(** ** The admin helpers of the browser client *)

Module Client.

(** What the request of [login] comes to: [fetch] rejects, or it gives a
    response with its [ok] flag and a body; the body is not JSON (or is
    [null]), or it is an object whose [token] is a text or is missing. *)
Inductive reply :=
| NoReply
| Reply (ok : bool) (data : option (option string)).

(** What [login] throws: the error it makes itself, or whatever [fetch],
    [res.json()] or the reading of [data.token] threw. *)
Inductive failure :=
| Thrown (message : string)
| Rejected.

(** [logout()], on the contents of [localStorage] *)
Definition logout (ls : gmap string string) : gmap string string :=
  delete "ecg_token"%string ls.

(** [authHeaders()]: the value of the Authorization header of the object it
    returns, [None] for the empty object. *)
Definition authHeaders (ls : gmap string string) : option string :=
  let t := ls !! "ecg_token"%string in
  if negb (falsy t) then Some ("Bearer " +:+ ToString t) else None.

(** [login(username, password)], on the reply to its request *)
Definition login (res : reply) (ls : gmap string string)
  : (failure + option string) * gmap string string :=
  match res with
  | NoReply => (inl Rejected, ls)
  | Reply ok data =>
      if negb ok then (inl (Thrown "Login failed"), ls)
      else
        match data with
        | None => (inl Rejected, ls)
        | Some token => (inr token, <["ecg_token"%string := ToString token]> ls)
        end
  end.

End Client.

(** ** Strings and the phone pattern *)

Lemma string_app_cons c s t : String c s +:+ t = String c (s +:+ t).
Proof. done. Qed.

Lemma string_app_empty_r s : s +:+ "" = s.
Proof.
  induction s as [|c s IH]; [done|].
  rewrite string_app_cons. by rewrite IH.
Qed.

Lemma after_prefix_Some p s t : after_prefix p s = Some t <-> s = p +:+ t.
Proof.
  revert s; induction p as [|a p IH]; intros s; simpl.
  - split; [intros [= ->]|intros ->]; done.
  - destruct s as [|b s]; [split; discriminate|].
    destruct (decide (a = b)) as [->|Hne].
    + rewrite IH. split; [intros ->|intros [= ->]]; done.
    + split; [discriminate|]. intros [= ? ?]. done.
Qed.

Lemma residues_Lit p s t : In t (residues (Lit p) s) <-> s = p +:+ t.
Proof.
  change (residues (Lit p) s)
    with (match after_prefix p s with Some t => [t] | None => [] end).
  rewrite <- after_prefix_Some.
  destruct (after_prefix p s); simpl; split; try done.
  - intros [->|[]]. done.
  - intros [= ->]. by left.
Qed.

Lemma residues_rep_digit n s t :
  In t (residues (Rep n Digit) s)
  <-> exists ds, s = ds +:+ t /\ String.length ds = n /\ all_digits ds = true.
Proof.
  revert s; induction n as [|n IH]; intros s.
  - simpl. split.
    + intros [<-|[]]. exists ""%string. done.
    + intros (ds & -> & Hl & _). destruct ds; [by left|done].
  - change (residues (Rep (S n) Digit) s)
      with (flat_map (residues (Rep n Digit)) (residues Digit s)).
    rewrite in_flat_map. split.
    + intros (x & Hx & Ht). simpl in Hx.
      destruct s as [|c s]; [done|].
      destruct (is_digit c) eqn:Hc; [|done].
      destruct Hx as [<-|[]].
      apply IH in Ht as (ds & -> & Hl & Hd).
      exists (String c ds). simpl. rewrite Hc, Hd, Hl. done.
    + intros (ds & -> & Hl & Hd).
      destruct ds as [|c ds]; [done|]. simpl in Hl, Hd.
      apply andb_true_iff in Hd as [Hc Hd].
      exists (ds +:+ t). split.
      * rewrite string_app_cons. simpl. rewrite Hc. by left.
      * apply IH. exists ds. split_and!; [done|lia|done].
Qed.

Lemma existsb_is_empty l : existsb is_empty l = true <-> In ""%string l.
Proof.
  rewrite existsb_exists. split.
  - intros (x & Hx & He). by destruct x.
  - intros H. by exists ""%string.
Qed.

(** The regular expression accepts exactly the phone format. *)
Lemma phonePattern_spec s : regex_test phonePattern s = true <-> phone_format s.
Proof.
  unfold regex_test, phonePattern, phone_format.
  rewrite existsb_is_empty.
  change (residues (Seq (Alt (Lit "+233") (Lit "0")) (Rep 9 Digit)) s)
    with (flat_map (residues (Rep 9 Digit))
            (residues (Lit "+233") s ++ residues (Lit "0") s)).
  rewrite in_flat_map. split.
  - intros (x & Hx & He).
    apply residues_rep_digit in He as (ds & -> & Hl & Hd).
    rewrite string_app_empty_r in Hx. exists ds. split; [|done].
    apply in_app_iff in Hx as [Hx|Hx]; apply residues_Lit in Hx; auto.
  - intros (ds & Hs & Hl & Hd). exists ds. split.
    + apply in_app_iff. rewrite !residues_Lit. tauto.
    + apply residues_rep_digit. exists ds. by rewrite string_app_empty_r.
Qed.

(** ** Numbers *)

Lemma to_double_safe z : Z.abs z <= 2 ^ 53 -> to_double z = z.
Proof.
  intros H. unfold to_double. cbv zeta.
  destruct (Z.leb_spec (Z.abs z) (2 ^ 53)); [done|lia].
Qed.

Lemma Number_of_safe z : Z.abs z <= 2 ^ 53 -> Number_of z = Finite z.
Proof.
  intros H. unfold Number_of. cbv zeta. rewrite to_double_safe by done.
  destruct (Z.leb_spec (2 ^ 1024) (Z.abs z)) as [Hbig|]; [|done].
  exfalso. assert (2 ^ 53 < 2 ^ 1024) by (apply Z.pow_lt_mono_r; lia). lia.
Qed.

(** ** The record store *)

Lemma readRecords_eq w : readRecords w = (inr (loaded w), log ReadFile w).
Proof.
  unfold readRecords, try_catch, bind, fs_readFile, loaded.
  destruct (file w) as [| |[c|raw]]; done.
Qed.

Lemma readRecords_loaded w : (readRecords w).1 = inr (loaded w).
Proof. by rewrite readRecords_eq. Qed.

Lemma loaded_log o w : loaded (log o w) = loaded w.
Proof. done. Qed.

Lemma loaded_Holds w rs :
  file w = Holds (JSON_stringify rs) -> loaded w = Array rs.
Proof. unfold loaded. by intros ->. Qed.

Lemma toISOString_Some t : toISOString (Some t) = inr (iso_of t).
Proof. done. Qed.

Lemma or_zero_id x : or_zero x = x.
Proof. unfold or_zero. destruct (Z.eqb_spec x 0); congruence. Qed.

Lemma foldl_max_spec xs x :
  In (foldl Z.max x xs) (x :: xs)
  /\ forall y, In y (x :: xs) -> y <= foldl Z.max x xs.
Proof.
  revert x; induction xs as [|a xs IH]; intros x; simpl.
  - split; [by left|]. intros y [->|[]]. lia.
  - destruct (IH (Z.max x a)) as [Hin Hle]. split.
    + destruct Hin as [Hm|Hin]; [|by right; right].
      rewrite <- Hm. destruct (Z.max_spec x a) as [[_ ->]|[_ ->]]; auto.
    + intros y Hy.
      assert (y <= Z.max x a \/ In y xs) as [Hy'|Hy'].
      { destruct Hy as [->|[->|Hy]]; [left; lia|left; lia|by right]. }
      * etrans; [exact Hy'|]. apply Hle. by left.
      * apply Hle. by right.
Qed.

(** [fresh_id] is 1 on the empty array and otherwise the double nearest to
    the greatest id plus one. *)
Lemma fresh_id_spec rs :
  match rs with
  | [] => fresh_id rs = 1
  | _ :: _ =>
      exists m, In m (map id rs) /\ (forall x, In x (map id rs) -> x <= m)
                /\ fresh_id rs = to_double (m + 1)
  end.
Proof.
  unfold fresh_id.
  replace (map (fun r => or_zero (id r)) rs) with (map id rs)
    by (apply map_ext; intros; by rewrite or_zero_id).
  destruct rs as [|r rs]; [done|]. simpl.
  destruct (foldl_max_spec (map id rs) (id r)) as [Hin Hle].
  exists (foldl Z.max (id r) (map id rs)). done.
Qed.

(** On safe ids the sum is exact. *)
Lemma fresh_id_safe rs :
  Forall (fun r => safe (id r)) rs ->
  match rs with
  | [] => fresh_id rs = 1
  | _ :: _ =>
      exists m, In m (map id rs) /\ (forall x, In x (map id rs) -> x <= m)
                /\ fresh_id rs = m + 1
  end.
Proof.
  intros Hs. pose proof (fresh_id_spec rs) as H.
  destruct rs as [|r rs]; [done|].
  destruct H as (m & Hin & Hle & ->). exists m. split_and!; [done|done|].
  apply to_double_safe.
  apply in_map_iff in Hin as (x & <- & Hx).
  rewrite Forall_forall in Hs. apply list_elem_of_In, Hs in Hx.
  unfold safe in Hx. lia.
Qed.

Lemma fresh_id_above rs :
  Forall (fun r => safe (id r)) rs ->
  forall y, In y rs -> id y < fresh_id rs.
Proof.
  intros Hs y Hy. pose proof (fresh_id_safe rs Hs) as H.
  destruct rs as [|r rs]; [done|].
  destruct H as (m & _ & Hle & ->).
  assert (id y <= m) by (apply Hle, in_map, Hy). lia.
Qed.

Lemma next_id_Array h rs w :
  spreadable h rs -> next_id h (Array rs) w = (inr (fresh_id rs), w).
Proof.
  unfold spreadable, next_id, fresh_id. intros Hl.
  destruct (map (fun r => or_zero (id r)) rs) as [|x xs] eqn:E; [done|].
  assert (length (x :: xs) = length rs) as -> by (by rewrite <- E, length_map).
  destruct (N.ltb_spec (max_arguments h) (N.of_nat (length rs))); [lia|done].
Qed.

Lemma next_id_overflow h rs w :
  ~ spreadable h rs ->
  next_id h (Array rs) w = (inl (Error RangeError_stack), w).
Proof.
  unfold spreadable, next_id. intros Hl.
  destruct (map (fun r => or_zero (id r)) rs) as [|x xs] eqn:E.
  { destruct rs; [|done]. simpl in Hl. lia. }
  assert (length (x :: xs) = length rs) as -> by (by rewrite <- E, length_map).
  destruct (N.ltb_spec (max_arguments h) (N.of_nat (length rs))); [done|lia].
Qed.

(** What [writeRecords] does. *)
Lemma writeRecords_eq rs w :
  writeRecords rs w
  = match write_failure w with
    | None => (inr tt, set_file (Holds (JSON_stringify rs))
                         (log (WriteFile (JSON_stringify rs)) w))
    | Some e => (inl (Error e), log (WriteFile (JSON_stringify rs)) w)
    end.
Proof. unfold writeRecords, fs_writeFile. by destruct (write_failure w). Qed.

(** The create handler on four texts and an array that can be spread: the
    record is built and the write decides the answer. *)
Lemma post_records_resumed_texts h v l p i rs w :
  spreadable h rs ->
  let r := created (fresh_id rs) (now w) v l p i in
  post_records_resumed h (body_of v l p i) (Array rs) w
  = match write_failure w with
    | None =>
        (inr {| status := 201;
                body := Created "Record created successfully" r |},
         set_file (Holds (JSON_stringify (rs ++ [r])))
           (log (WriteFile (JSON_stringify (rs ++ [r]))) w))
    | Some e =>
        (inr {| status := 500; body := Failure "Error creating record" e |},
         log (WriteFile (JSON_stringify (rs ++ [r]))) w)
    end.
Proof.
  intros Hl. cbv zeta.
  unfold post_records_resumed, create_record, try_catch, bind.
  rewrite (next_id_Array h rs w Hl). cbn [body_of Body.vendorName Body.location
    Body.phone Body.issue Value.trim lift ret Date_now].
  rewrite toISOString_Some. cbn [lift ret array_method].
  rewrite writeRecords_eq. unfold created.
  destruct (write_failure w); done.
Qed.

(** The create handler, from its first statement: a guard answers 400, or
    the conversion of the phone to a string throws, or the file is read and
    the handler goes on with what was loaded. *)
Lemma post_records_eq h b w :
  post_records h b w
  = if Value.falsy (Body.vendorName b) || Value.falsy (Body.location b)
       || Value.falsy (Body.phone b) || Value.falsy (Body.issue b)
    then (inr {| status := 400; body := Message "All fields are required" |}, w)
    else
      match Value.ToString (Body.phone b) with
      | inl e =>
          (inr {| status := 500; body := Failure "Error creating record" e |}, w)
      | inr s =>
          if negb (regex_test phonePattern s)
          then (inr {| status := 400;
                       body := Message "Invalid Ghanaian phone number format" |}, w)
          else post_records_resumed h b (loaded w) (log ReadFile w)
      end.
Proof.
  unfold post_records, post_records_resumed, try_catch, bind.
  destruct (Value.falsy (Body.vendorName b) || Value.falsy (Body.location b)
            || Value.falsy (Body.phone b) || Value.falsy (Body.issue b)); [done|].
  destruct (Value.ToString (Body.phone b)) as [e|s]; [done|]. simpl.
  destruct (negb (regex_test phonePattern s)); [done|].
  by rewrite readRecords_eq.
Qed.

Lemma rejects_false_texts v l p i :
  rejects (body_of v l p i) = false
  <-> v <> ""%string /\ l <> ""%string /\ i <> ""%string
      /\ regex_test phonePattern p = true.
Proof.
  unfold rejects. cbn [body_of Body.vendorName Body.location Body.phone
    Body.issue Value.falsy Value.ToString].
  rewrite !orb_false_iff, negb_false_iff. split.
  - intros ((((Hv & Hl) & Hp) & Hi) & Hr).
    split_and!; try done; by intros ->.
  - intros (Hv & Hl & Hi & Hr). split_and!; try done.
    + by destruct v.
    + by destruct l.
    + destruct p; [|done]. done.
    + by destruct i.
Qed.

Lemma post_records_accepts h v l p i w :
  rejects (body_of v l p i) = false ->
  post_records h (body_of v l p i) w
  = post_records_resumed h (body_of v l p i) (loaded w) (log ReadFile w).
Proof.
  intros H. rewrite post_records_eq. unfold rejects in H.
  apply orb_false_iff in H as [H1 H2]. rewrite H1.
  cbn [body_of Body.phone Value.ToString] in *. by rewrite H2.
Qed.

Lemma post_records_rejects h w b :
  rejects b = true ->
  exists msg, post_records h b w
              = (inr {| status := 400; body := Message msg |}, w).
Proof.
  unfold rejects. rewrite post_records_eq. intros H.
  destruct (Value.falsy (Body.vendorName b) || Value.falsy (Body.location b)
            || Value.falsy (Body.phone b) || Value.falsy (Body.issue b)) eqn:E.
  - eexists. done.
  - simpl in H. destruct (Value.ToString (Body.phone b)) as [e|s]; [done|].
    rewrite H. eexists. done.
Qed.

Lemma absent_or_empty_falsy x : absent_or_empty x -> Value.falsy x = true.
Proof. by intros [-> | ->]. Qed.

Lemma falsy_blank x : Value.falsy x = true -> blank x.
Proof. destruct x as [[|c s]| | |[] ?]; done. Qed.

(** The create handler answers 400 exactly when one of its guards fires:
    a field counts as false, or the phone, as a string, is not in the
    format. *)
Lemma rejects_true b :
  rejects b = true <->
  Value.falsy (Body.vendorName b) = true \/ Value.falsy (Body.location b) = true
  \/ Value.falsy (Body.phone b) = true \/ Value.falsy (Body.issue b) = true
  \/ phone_mismatch (Body.phone b).
Proof.
  unfold rejects, phone_mismatch. rewrite !orb_true_iff.
  destruct (Value.ToString (Body.phone b)) as [e|s].
  - split; [|intros [?|[?|[?|[?|(s & [=] & _)]]]]; auto].
    intros [[[[?|?]|?]|?]|?]; auto. done.
  - rewrite negb_true_iff, <- not_true_iff_false, phonePattern_spec. split.
    + intros [[[[?|?]|?]|?]|?]; auto. do 4 right. by exists s.
    + intros [?|[?|[?|[?|(s' & [= <-] & ?)]]]]; auto.
Qed.

Lemma post_records_400 h b w bd w' :
  post_records h b w = (inr {| status := 400; body := bd |}, w') ->
  rejects b = true.
Proof.
  rewrite post_records_eq. unfold rejects.
  destruct (Value.falsy (Body.vendorName b) || Value.falsy (Body.location b)
            || Value.falsy (Body.phone b) || Value.falsy (Body.issue b)); [done|].
  destruct (Value.ToString (Body.phone b)) as [e|s]; [done|]. simpl.
  destruct (negb (regex_test phonePattern s)); [done|].
  unfold post_records_resumed, try_catch, create_record, bind.
  intros H. exfalso. revert H.
  destruct (next_id h (loaded w) (log ReadFile w)) as [[e|n] w1]; [done|].
  destruct (Value.trim "vendorName" (Body.vendorName b)); [done|].
  destruct (Value.trim "location" (Body.location b)); [done|].
  destruct (Value.trim "phone" (Body.phone b)); [done|].
  destruct (Value.trim "issue" (Body.issue b)); [done|].
  cbn [lift ret Date_now toISOString].
  destruct (array_method "push" (loaded w) w1) as [[e|rs] w2]; [done|].
  rewrite writeRecords_eq. destruct (write_failure w2); done.
Qed.

(** C7: [readRecords] never throws.  When reading the file fails (it is
    absent or unreadable) or its text is not JSON, the result is the empty
    array; otherwise it is the parsed contents. *)
Theorem load_never_fails (w : world) :
  exists records,
    (readRecords w).1 = inr records
    /\ match (fs_readFile w).1 with
       | inl _ => records = Array []
       | inr data =>
           match (JSON_parse data w).1 with
           | inl _ => records = Array []
           | inr parsed => records = parsed
           end
       end.
Proof.
  exists (loaded w). rewrite readRecords_eq. split; [done|].
  unfold fs_readFile, loaded. destruct (file w) as [| |[c|raw]]; done.
Qed.


(** C2, as amended: the create handler answers 400, leaving the world as it
    was (no read and no write of the file), whenever one of the four fields
    is missing or the empty string as sent, or the phone is not in the
    format; and it answers 400 only when one of the four fields is missing
    or empty after trimming (or is no text and counts as false), or the
    phone is not in the format.  The phones +233501234567 and 0501234567 are
    in the format, 12345 and +1234567890 are not. *)
Theorem create_rejects_invalid (h : host) (w : world) (b : Body.t) :
  let rejected :=
    exists msg, post_records h b w
                = (inr {| status := 400; body := Message msg |}, w) in
  (absent_or_empty (Body.vendorName b) \/ absent_or_empty (Body.location b)
   \/ absent_or_empty (Body.phone b) \/ absent_or_empty (Body.issue b)
   \/ phone_mismatch (Body.phone b)
   -> rejected)
  /\ ((exists bd w', post_records h b w = (inr {| status := 400; body := bd |}, w'))
      -> rejected
         /\ (blank (Body.vendorName b) \/ blank (Body.location b)
             \/ blank (Body.phone b) \/ blank (Body.issue b)
             \/ phone_mismatch (Body.phone b)))
  /\ phone_format "+233501234567" /\ phone_format "0501234567"
  /\ ~ phone_format "12345" /\ ~ phone_format "+1234567890".
Proof.
  simpl. split; [|split].
  - intros H. apply post_records_rejects. apply rejects_true.
    destruct H as [H|[H|[H|[H|H]]]]; eauto 6 using absent_or_empty_falsy.
  - intros (bd & w' & H). apply post_records_400 in H.
    split; [by apply post_records_rejects|].
    destruct (proj1 (rejects_true b) H) as [H'|[H'|[H'|[H'|H']]]];
      eauto 6 using falsy_blank.
  - rewrite <- !phonePattern_spec. repeat split; done.
Qed.
(** ** The middleware *)

Lemma bearer_token_Bearer tok :
  bearer_token (Some ("Bearer " +:+ tok)) = Some tok.
Proof. done. Qed.

Lemma checkDeveloperAuth_pass w auth next :
  authorized w auth -> checkDeveloperAuth auth next w = next w.
Proof.
  intros (tok & -> & Hne & Hin).
  unfold checkDeveloperAuth. rewrite bearer_token_Bearer.
  unfold bind, validTokens_has. rewrite bool_decide_eq_true_2 by done.
  destruct tok; done.
Qed.

Lemma checkDeveloperAuth_cases auth next w :
  checkDeveloperAuth auth next w = next w
  \/ checkDeveloperAuth auth next w
     = (inr {| status := 401;
               body := Message "Unauthorized - Developer access required" |}, w).
Proof.
  unfold checkDeveloperAuth, bind.
  destruct (bearer_token auth) as [tok|]; simpl; [|by right].
  destruct (is_empty tok || negb (bool_decide (tok ∈ validTokens w))); auto.
Qed.

Lemma startsWith_Bearer h :
  startsWith h "Bearer " = true ->
  h = "Bearer " +:+ substring_from 7 h.
Proof.
  unfold startsWith. destruct (after_prefix "Bearer " h) as [t|] eqn:H; [|done].
  apply after_prefix_Some in H as ->. done.
Qed.

(** ** Deleting a record *)

Lemma findIndex_None {A} (p : A -> bool) l :
  findIndex p l = None <-> forall x, In x l -> p x = false.
Proof.
  induction l as [|a l IH]; simpl; [done|].
  destruct (p a) eqn:Ha.
  - split; [done|]. intros H. rewrite (H a) in Ha by auto. done.
  - destruct (findIndex p l); simpl.
    + split; [done|]. intros H. apply proj2 in IH.
      discriminate IH. auto.
    + split; [|done]. intros _ x [->|Hx]; [done|]. by apply IH.
Qed.

Lemma findIndex_Some {A} (p : A -> bool) l i :
  findIndex p l = Some i ->
  exists before x after,
    l = before ++ x :: after /\ p x = true
    /\ (forall y, In y before -> p y = false)
    /\ delete i l = before ++ after.
Proof.
  revert i; induction l as [|a l IH]; intros i; simpl; [done|].
  destruct (p a) eqn:Ha.
  - intros [= <-]. exists [], a, l. done.
  - destruct (findIndex p l) as [j|]; simpl; [|done].
    intros [= <-].
    destruct (IH j eq_refl) as (before & x & after & -> & Hx & Hb & Hd).
    exists (a :: before), x, after. split_and!; [done|done| |].
    + intros y [->|Hy]; auto.
    + change (a :: delete j (before ++ x :: after) = a :: (before ++ after)).
      by rewrite Hd.
Qed.

Lemma delete_record_eq param w :
  delete_record param w
  = delete_record_resumed (parseInt param) (loaded w) (log ReadFile w).
Proof.
  unfold delete_record, delete_record_resumed, try_catch, bind.
  by rewrite readRecords_eq.
Qed.

Lemma delete_record_resumed_Array n rs w :
  delete_record_resumed n (Array rs) w =
    match findIndex (fun r => strict_eq (id r) n) rs with
    | None =>
        (inr {| status := 404; body := Message "Record not found" |}, w)
    | Some index =>
        match write_failure w with
        | None =>
            (inr {| status := 200; body := Message "Record deleted successfully" |},
             set_file (Holds (JSON_stringify (delete index rs)))
               (log (WriteFile (JSON_stringify (delete index rs))) w))
        | Some e =>
            (inr {| status := 500; body := Failure "Error deleting record" e |},
             log (WriteFile (JSON_stringify (delete index rs))) w)
        end
    end.
Proof.
  unfold delete_record_resumed, remove_record, try_catch, bind.
  cbn [array_method ret].
  destruct (findIndex _ _) as [index|]; [|done].
  rewrite writeRecords_eq. by destruct (write_failure w).
Qed.



(** *** What parseInt reads *)

Lemma is_digit_not_white c : is_digit c = true -> is_white c = false.
Proof.
  unfold is_digit, is_white. intros H.
  apply andb_true_iff in H as [H1 H2].
  apply N.leb_le in H1, H2.
  rewrite !orb_false_iff, andb_false_iff, !N.leb_gt, !N.eqb_neq. lia.
Qed.

Lemma is_digit_value c :
  is_digit c = true -> digit_value c = Some (Z.of_N (code c) - 48)
                       /\ 0 <= Z.of_N (code c) - 48 < 10.
Proof.
  unfold is_digit, digit_value. intros H. rewrite H.
  apply andb_true_iff in H as [H1 H2]. apply N.leb_le in H1, H2. split; [done|lia].
Qed.

Lemma not_digit_value c :
  is_digit c = false ->
  match digit_value c with Some v => v <? 10 | None => false end = false.
Proof.
  unfold is_digit, digit_value. cbv zeta. intros ->.
  destruct ((97 <=? code c)%N && (code c <=? 122)%N) eqn:H1.
  { apply andb_true_iff in H1 as [H1 _]. apply N.leb_le in H1.
    apply Z.ltb_ge. lia. }
  destruct ((65 <=? code c)%N && (code c <=? 90)%N) eqn:H2; [|done].
  apply andb_true_iff in H2 as [H2 _]. apply N.leb_le in H2.
  apply Z.ltb_ge. lia.
Qed.

Lemma read_digits_stop acc rest :
  starts_with_digit rest = false -> read_digits 10 acc rest = acc.
Proof.
  destruct rest as [|c rest]; simpl; [done|]. intros H.
  apply not_digit_value in H. destruct (digit_value c); [|done].
  by rewrite H.
Qed.

Lemma read_digits_decimal ds rest acc :
  all_digits ds = true -> starts_with_digit rest = false ->
  read_digits 10 (Some acc) (ds +:+ rest) = Some (decimal_value acc ds).
Proof.
  intros Hd Hr. revert acc.
  induction ds as [|c ds IH]; intros acc.
  - change ("" +:+ rest) with rest. by rewrite read_digits_stop.
  - simpl in Hd. apply andb_true_iff in Hd as [Hc Hd].
    rewrite string_app_cons. simpl.
    destruct (is_digit_value c Hc) as [-> Hv].
    replace (Z.of_N (code c) - 48 <? 10) with true by (symmetry; apply Z.ltb_lt; lia).
    by apply IH.
Qed.

(** On decimal digits followed by something that is not a digit, parseInt
    reads the digits, unless the string starts with [0x] or [0X]. *)
(** On decimal digits followed by something that is not a digit, parseInt
    reads the digits, unless the string starts with [0x] or [0X]; the
    number is the double nearest to what the digits denote. *)
Lemma parseInt_decimal_prefix ds rest :
  ds <> ""%string -> all_digits ds = true -> starts_with_digit rest = false ->
  hex_prefixed (ds +:+ rest) = false ->
  parseInt (ds +:+ rest) = Number_of (decimal_value 0 ds).
Proof.
  intros Hne Hd Hr Hx.
  destruct ds as [|c ds]; [done|]. clear Hne.
  simpl in Hd. apply andb_true_iff in Hd as [Hc Hd].
  rewrite string_app_cons in *.
  unfold parseInt.
  assert (Ht : trimStart (String c (ds +:+ rest)) = String c (ds +:+ rest)).
  { simpl. by rewrite is_digit_not_white. }
  rewrite Ht.
  assert (Hs : forall p, (p = "-" \/ p = "+")%char ->
            startsWith (String c (ds +:+ rest)) (String p "") = false).
  { intros p Hp. unfold startsWith. simpl.
    destruct (decide (p = c)) as [<-|]; [|done].
    destruct Hp as [->| ->]; done. }
  rewrite !Hs by auto. simpl orb. cbv iota.
  unfold hex_prefixed in Hx. rewrite Hx.
  unfold read_digits; fold read_digits.
  destruct (is_digit_value c Hc) as [-> Hv].
  replace (Z.of_N (code c) - 48 <? 10) with true by (symmetry; apply Z.ltb_lt; lia).
  rewrite read_digits_decimal by done.
  simpl default. f_equal. simpl decimal_value. lia.
Qed.





Lemma handle_DELETE_eq h w auth param :
  authorized w auth ->
  handle h (DELETE_records auth param) w = delete_record param w.
Proof. intros Ha. simpl. by rewrite checkDeveloperAuth_pass. Qed.



(** ** Statistics *)

Lemma count_record_invalid (h : host) today thisMonth r counts w :
  new_Date h (date r) = None ->
  count_record h today thisMonth r counts w = (inl (Error RangeError_time), w).
Proof. unfold count_record, bind. intros ->. done. Qed.

Lemma count_record_valid (h : host) today thisMonth r counts w t :
  new_Date h (date r) = Some t ->
  count_record h today thisMonth r counts w
  = (inr (if decide (toDateString (localOffset h) (Some t) = today)
          then counts.1 + 1 else counts.1,
          if decide (slice_to 7 (iso_of t) = thisMonth)
          then counts.2 + 1 else counts.2), w).
Proof. unfold count_record, bind. intros ->. done. Qed.

Lemma count_record_world (h : host) today thisMonth r counts w :
  (count_record h today thisMonth r counts w).2 = w.
Proof.
  unfold count_record, bind.
  destruct (new_Date h (date r)); done.
Qed.

Lemma forEach_world (h : host) today thisMonth records counts w :
  (forEach records (count_record h today thisMonth) counts w).2 = w.
Proof.
  revert counts; induction records as [|r records IH]; intros counts; [done|].
  simpl. unfold bind.
  pose proof (count_record_world h today thisMonth r counts w) as Hw.
  destruct (count_record h today thisMonth r counts w) as [[e|c] w'];
    simpl in Hw; subst w'.
  - done.
  - apply IH.
Qed.

Lemma forEach_invalid (h : host) today thisMonth records counts w :
  (exists r, In r records /\ new_Date h (date r) = None) ->
  forEach records (count_record h today thisMonth) counts w
  = (inl (Error RangeError_time), w).
Proof.
  revert counts.
  induction records as [|r0 records IH]; intros counts (r & Hin & Hr).
  { destruct Hin. }
  simpl. unfold bind.
  destruct (new_Date h (date r0)) as [t|] eqn:Hr0.
  - rewrite (count_record_valid h _ _ _ _ _ _ Hr0).
    apply IH. destruct Hin as [->|Hin]; [congruence|eauto].
  - by rewrite count_record_invalid.
Qed.

Lemma forEach_cons r rest f counts :
  forEach (r :: rest) f counts = bind (f r counts) (fun c => forEach rest f c).
Proof. done. Qed.

Lemma filter_cons_length {A} (p : A -> bool) x l :
  Z.of_nat (length (List.filter p (x :: l)))
  = (if p x then 1 else 0) + Z.of_nat (length (List.filter p l)).
Proof. cbn [List.filter]. destruct (p x); cbn [length]; lia. Qed.

Lemma same_local_day_valid (h : host) t r tr :
  new_Date h (date r) = Some tr ->
  same_local_day h t r
  = bool_decide (toDateString (localOffset h) (Some tr)
                 = toDateString (localOffset h) (Some t)).
Proof. unfold same_local_day. by intros ->. Qed.

Lemma same_utc_month_valid (h : host) t r tr :
  new_Date h (date r) = Some tr ->
  same_utc_month h t r = bool_decide (slice_to 7 (iso_of tr) = slice_to 7 (iso_of t)).
Proof. unfold same_utc_month. intros ->. by rewrite toISOString_Some. Qed.

(** On valid dates the loop counts the records of the local day and those
    of the UTC month. *)
Lemma forEach_counts (h : host) t records counts w :
  Forall (fun r => new_Date h (date r) <> None) records ->
  forEach records
    (count_record h (toDateString (localOffset h) (Some t)) (slice_to 7 (iso_of t)))
    counts w
  = (inr (counts.1 + Z.of_nat (length (List.filter (same_local_day h t) records)),
          counts.2 + Z.of_nat (length (List.filter (same_utc_month h t) records))),
     w).
Proof.
  intros Hall. revert counts.
  induction Hall as [|r records Hr Hall IH]; intros [a b].
  { cbn [forEach List.filter length fst snd]. unfold ret.
    by rewrite !Z.add_0_r. }
  rewrite forEach_cons. unfold bind.
  destruct (new_Date h (date r)) as [tr|] eqn:Hd; [|done].
  rewrite (count_record_valid h _ _ _ _ _ _ Hd), IH.
  rewrite !filter_cons_length.
  rewrite (same_local_day_valid h _ _ _ Hd), (same_utc_month_valid h _ _ _ Hd).
  cbn [fst snd].
  repeat case_decide; repeat case_bool_decide; try done;
    do 3 f_equal; lia.
Qed.

(** What the stats handler answers when every stored date is valid: the
    size of the collection, the records of the local day of the request,
    and the records of the UTC month of the request. *)
(** What the stats handler answers when the file holds an array and every
    stored date is valid: the size of the array, the records of the local
    day of the request, and the records of the UTC month of the request. *)
Lemma get_stats_counts (h : host) w rs :
  loaded w = Array rs ->
  Forall (fun r => new_Date h (date r) <> None) rs ->
  (get_stats h w).1
  = inr {| status := 200;
           body :=
             Stats (Z.of_nat (length rs))
               (Z.of_nat (length (List.filter (same_local_day h (now w)) rs)))
               (Z.of_nat (length (List.filter (same_utc_month h (now w)) rs))) |}.
Proof.
  intros Hl Hall. unfold get_stats, try_catch, bind.
  rewrite readRecords_eq, Hl. unfold Date_now. rewrite toISOString_Some.
  cbn [lift ret array_method]. by rewrite forEach_counts.
Qed.

Lemma get_stats_world (h : host) w : (get_stats h w).2 = log ReadFile w.
Proof.
  unfold get_stats, try_catch, bind. rewrite readRecords_eq. simpl.
  destruct (loaded w) as [rs| |b]; [|done|done]. simpl.
  match goal with |- context [forEach ?rs ?f ?c ?w'] =>
    destruct (forEach rs f c w') as [[e|c'] w''] eqn:Hf end;
  apply (f_equal snd) in Hf; rewrite forEach_world in Hf; simpl in Hf;
  by subst.
Qed.

(** C10: when some stored record has a date that [Date.parse] does not
    read, the authorized stats request is answered 500, with the message of
    the RangeError that [toISOString] throws in the loop. *)
Theorem stats_fails_on_invalid_date (h : host) (w : world) (auth : option string)
    (records : list record) :
  authorized w auth ->
  (readRecords w).1 = inr (Array records) ->
  (exists r, In r records /\ Date_parse h (date r) = None) ->
  (handle h (GET_stats auth) w).1
  = inr {| status := 500;
           body := Failure "Error getting statistics" RangeError_time |}.
Proof.
  intros Ha. rewrite readRecords_eq. intros [= Hl] (r & Hin & Hr). simpl.
  rewrite checkDeveloperAuth_pass by done.
  unfold get_stats, try_catch, bind.
  rewrite readRecords_eq, Hl. simpl.
  rewrite forEach_invalid; [done|].
  exists r. split; [done|]. unfold new_Date. by rewrite Hr.
Qed.

(** ** How one request changes the world *)

Lemma get_records_eq w :
  get_records w
  = (inr {| status := 200; body := Records (loaded w) |}, log ReadFile w).
Proof. unfold get_records, try_catch, bind. by rewrite readRecords_eq. Qed.

Lemma get_records_world w : (get_records w).2 = log ReadFile w.
Proof. by rewrite get_records_eq. Qed.

(** The create handler, once it has loaded: it answers 500 and leaves the
    world as it was, or the body holds four texts and what was loaded is an
    array that can be spread. *)
Lemma post_records_resumed_cases h b c w :
  (exists e, post_records_resumed h b c w
             = (inr {| status := 500; body := Failure "Error creating record" e |},
                w))
  \/ (exists v l p i rs, b = body_of v l p i /\ c = Array rs /\ spreadable h rs).
Proof.
  destruct c as [rs| |[]].
  - destruct (decide (N.of_nat (length rs) <= max_arguments h)%N) as [Hs|Hs].
    + destruct b as [v l p i].
      unfold post_records_resumed, create_record, try_catch, bind.
      rewrite (next_id_Array h rs w Hs).
      cbn [Body.vendorName Body.location Body.phone Body.issue].
      destruct v as [v| | |tv sv]; try (left; eexists; done).
      destruct l as [l| | |tl sl]; try (left; eexists; done).
      destruct p as [p| | |tp sp]; try (left; eexists; done).
      destruct i as [i| | |ti si]; try (left; eexists; done).
      right. by exists v, l, p, i, rs.
    + left. unfold post_records_resumed, create_record, try_catch, bind.
      rewrite (next_id_overflow h rs w Hs). eexists; done.
  - left. eexists; done.
  - left. eexists; done.
  - left. unfold post_records_resumed, create_record, try_catch, bind.
    cbn [next_id ret].
    destruct (Value.trim "vendorName" (Body.vendorName b)); [eexists; done|].
    destruct (Value.trim "location" (Body.location b)); [eexists; done|].
    destruct (Value.trim "phone" (Body.phone b)); [eexists; done|].
    destruct (Value.trim "issue" (Body.issue b)); [eexists; done|].
    eexists; done.
Qed.

(** What the create handler does to the world, whatever it is sent: nothing,
    or it reads the file and answers 500, or it is sent four texts that pass
    the guards, loads an array and attempts the write. *)
Lemma post_records_cases h b w :
  (post_records h b w).2 = w
  \/ (post_records h b w).2 = log ReadFile w
  \/ (exists v l p i rs,
        b = body_of v l p i /\ rejects b = false
        /\ loaded w = Array rs /\ spreadable h rs
        /\ post_records h b w
           = post_records_resumed h b (Array rs) (log ReadFile w)).
Proof.
  rewrite post_records_eq.
  destruct (Value.falsy (Body.vendorName b) || Value.falsy (Body.location b)
            || Value.falsy (Body.phone b) || Value.falsy (Body.issue b)) eqn:E;
    [by left|].
  destruct (Value.ToString (Body.phone b)) as [e|s] eqn:Es; [by left|].
  destruct (negb (regex_test phonePattern s)) eqn:Er; [by left|].
  right.
  destruct (post_records_resumed_cases h b (loaded w) (log ReadFile w))
    as [[e ->]|(v & l & p & i & rs & -> & Hl & Hs)]; [by left|].
  right. exists v, l, p, i, rs. rewrite Hl. split_and!; try done.
  unfold rejects. rewrite E. cbn [body_of Body.phone] in *. by rewrite Es, Er.
Qed.

Lemma post_records_change h b w :
  store_change (loaded w) (loaded (post_records h b w).2)
  /\ same_registry w (post_records h b w).2
  /\ write_error (post_records h b w).2 = write_error w.
Proof.
  destruct (post_records_cases h b w)
    as [-> |[-> |(v & l & p & i & rs & -> & _ & Hl & Hs & ->)]];
    [split; [constructor|done]..|].
  rewrite (post_records_resumed_texts h v l p i rs _ Hs).
  change (write_failure (log ReadFile w)) with (write_failure w).
  destruct (write_failure w); simpl.
  - rewrite loaded_log. split; [constructor|done].
  - split; [|done]. unfold loaded at 2. simpl. by eapply appended.
Qed.

Lemma delete_record_change param w :
  store_change (loaded w) (loaded (delete_record param w).2)
  /\ same_registry w (delete_record param w).2
  /\ write_error (delete_record param w).2 = write_error w.
Proof.
  rewrite delete_record_eq.
  destruct (loaded w) as [rs| |b] eqn:Hl.
  - rewrite delete_record_resumed_Array.
    destruct (findIndex _ _) as [i|] eqn:Hf.
    + change (write_failure (log ReadFile w)) with (write_failure w).
      destruct (write_failure w); simpl.
      * rewrite !loaded_log, Hl. split; [constructor|done].
      * split; [|done]. unfold loaded. simpl.
        apply findIndex_Some in Hf as (before & r & after & -> & _ & _ & ->).
        by eapply removed.
    + simpl. rewrite loaded_log, Hl. split; [constructor|done].
  - simpl. rewrite loaded_log, Hl. split; [constructor|done].
  - simpl. rewrite loaded_log, Hl. split; [constructor|done].
Qed.

Lemma dev_login_world code random w :
  (dev_login code random w).2 = w
  \/ (dev_login code random w).2
     = set_timers (timers w ++ [(now w + token_lifetime, make_token (now w) random)])
         (set_tokens ({[make_token (now w) random]} ∪ validTokens w) w).
Proof.
  unfold dev_login, try_catch, bind.
  destruct (Value.falsy code || negb (includes DEVELOPER_CODES code));
    [by left|by right].
Qed.

Lemma dev_login_accepts code random w :
  In code DEVELOPER_CODES ->
  dev_login (Value.Text code) random w
  = (inr {| status := 200;
            body := Granted "Developer access granted" (make_token (now w) random) |},
     set_timers (timers w ++ [(now w + token_lifetime, make_token (now w) random)])
       (set_tokens ({[make_token (now w) random]} ∪ validTokens w) w)).
Proof.
  intros Hc. unfold dev_login, try_catch, bind.
  assert (includes DEVELOPER_CODES (Value.Text code) = true) as ->.
  { simpl. apply bool_decide_eq_true_2. by apply list_elem_of_In. }
  assert (Value.falsy (Value.Text code) = false) as ->; [|done].
  simpl in *. destruct Hc as [<-|[<-|[<-|[<-|[]]]]]; done.
Qed.

Lemma handle_change (h : host) r w :
  store_change (loaded w) (loaded (handle h r w).2).
Proof.
  destruct r as [code random|auth|b|auth param|auth|]; simpl.
  - destruct (dev_login_world code random w) as [-> | ->]; constructor.
  - destruct (checkDeveloperAuth_cases auth get_records w) as [-> | ->];
      [rewrite get_records_world|]; constructor.
  - apply post_records_change.
  - destruct (checkDeveloperAuth_cases auth (delete_record param) w) as [-> | ->];
      [apply delete_record_change|constructor].
  - destruct (checkDeveloperAuth_cases auth (get_stats h) w) as [-> | ->];
      [rewrite get_stats_world|]; constructor.
  - constructor.
Qed.

Lemma checkDeveloperAuth_registry auth next w :
  same_registry w (next w).2 -> same_registry w (checkDeveloperAuth auth next w).2.
Proof.
  intros H. by destruct (checkDeveloperAuth_cases auth next w) as [-> | ->].
Qed.

Lemma handle_registry (h : host) r w :
  (forall code random, r <> POST_dev_login code random) ->
  same_registry w (handle h r w).2.
Proof.
  destruct r as [code random|auth|b|auth param|auth|]; simpl; intros Hr.
  - by destruct (Hr code random).
  - apply checkDeveloperAuth_registry. by rewrite get_records_world.
  - apply post_records_change.
  - apply checkDeveloperAuth_registry, delete_record_change.
  - apply checkDeveloperAuth_registry. by rewrite get_stats_world.
  - done.
Qed.

(** A step leaves the registry alone, or is a login that adds a token and
    its timeout, or is the passing of time. *)
Lemma step_cases (h : host) w e :
  same_registry w (step h w e)
  \/ (exists random,
        now (step h w e) = now w
        /\ validTokens (step h w e) = {[make_token (now w) random]} ∪ validTokens w
        /\ timers (step h w e)
           = timers w ++ [(now w + token_lifetime, make_token (now w) random)])
  \/ (exists dt, step h w e = elapse dt w).
Proof.
  destruct e as [r|dt|e]; [|right; right; by exists dt|by left].
  destruct r as [code random| | | | |];
    try (left; apply handle_registry; congruence).
  simpl. destruct (dev_login_world code random w) as [-> | ->]; [by left|].
  right; left. by exists random.
Qed.

Lemma step_change (h : host) w e :
  store_change (loaded w) (loaded (step h w e)).
Proof.
  destruct e as [r|dt|e]; simpl; [apply handle_change|constructor..].
Qed.

Lemma run_app (h : host) es es' w :
  run h (es ++ es') w = run h es' (run h es w).
Proof. unfold run. apply foldl_app. Qed.

(** ** The order of the ids *)

Lemma StronglySorted_snoc (l : list Z) x :
  StronglySorted Z.lt l -> Forall (fun y => y < x) l ->
  StronglySorted Z.lt (l ++ [x]).
Proof.
  induction 1 as [|a l Hs IH Ha]; intros Hx; simpl.
  - repeat constructor.
  - apply Forall_cons in Hx as [Hax Hx]. constructor; [by apply IH|].
    apply Forall_app. split; [done|]. by constructor.
Qed.

Lemma StronglySorted_remove (l1 l2 : list Z) x :
  StronglySorted Z.lt (l1 ++ x :: l2) -> StronglySorted Z.lt (l1 ++ l2).
Proof.
  induction l1 as [|a l1 IH]; simpl; intros H.
  - by apply StronglySorted_inv in H as [H _].
  - apply StronglySorted_inv in H as [H Ha]. constructor; [by apply IH|].
    apply Forall_app in Ha as [Ha1 Ha2]. apply Forall_cons in Ha2 as [_ Ha2].
    apply Forall_app. done.
Qed.

Lemma StronglySorted_NoDup (l : list Z) :
  StronglySorted Z.lt l -> List.NoDup l.
Proof.
  induction 1 as [|a l Hs IH Ha]; constructor; [|done].
  intros Hin. rewrite Forall_forall in Ha.
  apply list_elem_of_In, Ha in Hin. lia.
Qed.

Lemma store_change_ids_within B c c' :
  0 <= B < 2 ^ 53 ->
  store_change c c' -> ids_within B c -> ids_within (B + 1) c'.
Proof.
  intros HB Hc (rs & -> & Hs & Hb).
  destruct Hc as [|rs' r [= <-] Hr|before r after [= ->]].
  - exists rs. split_and!; [done|done|].
    eapply Forall_impl; [exact Hb|]. simpl. lia.
  - assert (Hsafe : Forall (fun r => safe (id r)) rs).
    { eapply Forall_impl; [exact Hb|]. unfold safe. simpl. lia. }
    pose proof (fresh_id_above rs Hsafe) as Habove.
    pose proof (fresh_id_safe rs Hsafe) as Hspec.
    exists (rs ++ [r]). split_and!; [done| |].
    + rewrite map_app. apply StronglySorted_snoc; [done|].
      rewrite Forall_forall. intros y Hy.
      apply list_elem_of_In, in_map_iff in Hy as (x & <- & Hx).
      rewrite Hr. by apply Habove.
    + apply Forall_app. split.
      * eapply Forall_impl; [exact Hb|]. simpl. lia.
      * apply Forall_singleton. rewrite Hr.
        destruct rs as [|r0 rs0]; [lia|].
        destruct Hspec as (m & Hin & _ & ->).
        apply in_map_iff in Hin as (x & <- & Hx).
        rewrite Forall_forall in Hb. apply list_elem_of_In, Hb in Hx. lia.
  - exists (before ++ after). split_and!; [done| |].
    + rewrite map_app in *. by apply StronglySorted_remove in Hs.
    + apply Forall_app in Hb as [Hb1 Hb2].
      apply Forall_cons in Hb2 as [_ Hb2]. apply Forall_app. split.
      * eapply Forall_impl; [exact Hb1|]. simpl. lia.
      * eapply Forall_impl; [exact Hb2|]. simpl. lia.
Qed.

Lemma delete_record_shrinks param w :
  loaded (delete_record param w).2 = loaded w
  \/ exists before r after,
       loaded w = Array (before ++ r :: after)
       /\ loaded (delete_record param w).2 = Array (before ++ after).
Proof.
  rewrite delete_record_eq.
  destruct (loaded w) as [rs| |b] eqn:Hl.
  - rewrite delete_record_resumed_Array.
    destruct (findIndex _ _) as [i|] eqn:Hf.
    + change (write_failure (log ReadFile w)) with (write_failure w).
      destruct (write_failure w); simpl.
      * left. by rewrite !loaded_log.
      * right. unfold loaded. simpl.
        apply findIndex_Some in Hf as (before & r & after & -> & _ & _ & ->).
        by exists before, r, after.
    + left. simpl. by rewrite loaded_log.
  - left. simpl. by rewrite loaded_log.
  - left. simpl. by rewrite loaded_log.
Qed.

Lemma ids_within_removed B before r after :
  ids_within B (Array (before ++ r :: after)) ->
  ids_within B (Array (before ++ after)).
Proof.
  intros (rs & [= <-] & Hs & Hb).
  exists (before ++ after). split_and!; [done| |].
  - rewrite map_app in *. by apply StronglySorted_remove in Hs.
  - apply Forall_app in Hb as [Hb1 Hb2].
    apply Forall_cons in Hb2 as [_ Hb2]. by apply Forall_app.
Qed.

(** An event that is not a create request adds no id. *)
Lemma step_keeps_ids_within (h : host) w e B :
  is_create e = false ->
  ids_within B (loaded w) -> ids_within B (loaded (step h w e)).
Proof.
  intros He Hw. destruct e as [r|dt|e]; [|done..].
  destruct r as [code random|auth|b|auth param|auth|]; simpl; [| |done| | |done].
  - by destruct (dev_login_world code random w) as [-> | ->].
  - destruct (checkDeveloperAuth_cases auth get_records w) as [-> | ->];
      [by rewrite get_records_world|done].
  - destruct (checkDeveloperAuth_cases auth (delete_record param) w) as [-> | ->];
      [|done].
    destruct (delete_record_shrinks param w)
      as [-> |(before & r & after & Hl & ->)]; [done|].
    rewrite Hl in Hw. by eapply ids_within_removed.
  - destruct (checkDeveloperAuth_cases auth (get_stats h) w) as [-> | ->];
      [by rewrite get_stats_world|done].
Qed.

Lemma creates_cons e es :
  creates (e :: es) = ((if is_create e then 1 else 0) + creates es)%nat.
Proof. unfold creates. simpl. by destruct (is_create e). Qed.

Lemma creates_app es es' : creates (es ++ es') = (creates es + creates es')%nat.
Proof. unfold creates. by rewrite List.filter_app, length_app. Qed.

Lemma run_ids_within (h : host) es B w :
  0 <= B -> B + Z.of_nat (creates es) <= 2 ^ 53 ->
  ids_within B (loaded w) ->
  ids_within (B + Z.of_nat (creates es)) (loaded (run h es w)).
Proof.
  revert B w. induction es as [|e es IH]; intros B w HB Hlen Hw.
  - simpl. by rewrite Z.add_0_r.
  - rewrite creates_cons in *.
    change (run h (e :: es) w) with (run h es (step h w e)).
    destruct (is_create e) eqn:He.
    + replace (B + Z.of_nat (1 + creates es)) with (B + 1 + Z.of_nat (creates es))
        by lia.
      apply IH; [lia|lia|].
      apply (store_change_ids_within B (loaded w)); [lia|apply step_change|done].
    + apply IH; [lia|lia|]. by apply step_keeps_ids_within.
Qed.

(** C4, as amended: from a world whose data file holds the empty array,
    after any sequence of requests, passages of time and changes of the file
    system in which at most 2^53 requests are create requests, the file
    holds an array of records whose ids are pairwise distinct. *)
Theorem ids_stay_distinct (h : host) (w0 : world) (es : list event) :
  (readRecords w0).1 = inr (Array []) ->
  Z.of_nat (creates es) <= 2 ^ 53 ->
  exists records,
    (readRecords (run h es w0)).1 = inr (Array records)
    /\ List.NoDup (map id records).
Proof.
  rewrite readRecords_eq. intros [= H0] Hlen.
  destruct (run_ids_within h es 0 w0) as (rs & Hrs & Hs & _); [lia|lia| |].
  { exists []. rewrite H0. split_and!; [done|constructor|constructor]. }
  exists rs. rewrite readRecords_eq. split; [by rewrite Hrs|].
  by apply StronglySorted_NoDup.
Qed.

(** ** The token registry *)

Lemma pretty_N_go_no_underscore x s :
  no_underscore s = true -> no_underscore (pretty_N_go x s) = true.
Proof.
  revert s. induction (N.lt_wf_0 x) as [x _ IH]; intros s Hs.
  destruct (decide (x = 0%N)) as [->|Hx]; [by rewrite pretty_N_go_0|].
  rewrite pretty_N_go_step by lia. apply IH.
  - apply N.div_lt; lia.
  - simpl. rewrite Hs, andb_true_r.
    unfold pretty_N_char. by repeat case_match.
Qed.

Lemma pretty_Z_no_underscore (t : Z) : no_underscore (pretty t) = true.
Proof.
  assert (Hp : forall p : positive, no_underscore (pretty p) = true).
  { intros p. unfold pretty, pretty_positive, pretty, pretty_N.
    case_decide; [done|]. by apply pretty_N_go_no_underscore. }
  unfold pretty, pretty_Z. destruct t as [|p|p]; [done|apply Hp|].
  change (no_underscore (String "-" (pretty p)) = true). simpl. apply Hp.
Qed.

Lemma separator_inj a b r r' :
  no_underscore a = true -> no_underscore b = true ->
  a +:+ "_" +:+ r = b +:+ "_" +:+ r' -> a = b.
Proof.
  revert b; induction a as [|c a IH]; intros [|c' b] Ha Hb; try done.
  - intros [= <- _]. done.
  - intros [= -> _]. done.
  - rewrite !string_app_cons. intros [= -> H]. f_equal.
    simpl in Ha, Hb. apply andb_true_iff in Ha as [_ Ha], Hb as [_ Hb]. eauto.
Qed.

(** A token determines the time of its login. *)
Lemma make_token_time t r t' r' : make_token t r = make_token t' r' -> t = t'.
Proof.
  unfold make_token. intros H. apply (inj (String.app _)) in H.
  apply separator_inj in H; auto using pretty_Z_no_underscore.
  by apply (inj pretty) in H.
Qed.

Lemma make_token_nonempty t r : make_token t r <> ""%string.
Proof. done. Qed.

Lemma token_lifetime_pos : 0 < token_lifetime.
Proof. done. Qed.

Lemma elem_of_fold_delete (l : list (Z * string)) (S : gset string) (x : string) :
  x ∈ foldl (fun s tm => s ∖ {[tm.2]}) S l
  <-> x ∈ S /\ forall tm, In tm l -> tm.2 <> x.
Proof.
  revert S; induction l as [|a l IH]; intros S; simpl.
  - split; [intros H; split; [done|by intros tm []]|by intros [H _]].
  - rewrite IH, elem_of_difference, elem_of_singleton. split.
    + intros [[Hx Hne] H]. split; [done|].
      intros tm [<-|Hin]; [congruence|auto].
    + intros [Hx H]. split; [split; [done|]|].
      * intros ->. by apply (H a); [left|].
      * intros tm Hin. apply H. by right.
Qed.

Lemma In_filter {A} (P : A -> Prop) `{!forall x, Decision (P x)} (l : list A) x :
  In x (filter P l) <-> P x /\ In x l.
Proof. rewrite <- !list_elem_of_In. apply list_elem_of_filter. Qed.

Lemma elapse_now dt w : now (elapse dt w) = now w + Z.of_N dt.
Proof. done. Qed.

Lemma elapse_timers dt w tm :
  In tm (timers (elapse dt w)) <-> In tm (timers w) /\ now w + Z.of_N dt < tm.1.
Proof.
  unfold elapse, run_timers. simpl. rewrite In_filter.
  unfold is_due. rewrite Z.leb_gt. tauto.
Qed.

Lemma elapse_tokens dt w x :
  x ∈ validTokens (elapse dt w)
  <-> x ∈ validTokens w
      /\ forall tm, In tm (timers w) -> tm.1 <= now w + Z.of_N dt -> tm.2 <> x.
Proof.
  unfold elapse, run_timers. simpl. rewrite elem_of_fold_delete.
  split; intros [Hx H]; (split; [done|]); intros tm Htm.
  - intros Hd. apply H. apply In_filter. split; [|done].
    unfold is_due. by apply Z.leb_le.
  - apply In_filter in Htm as [Hd Htm]. apply H; [done|].
    unfold is_due in Hd. by apply Z.leb_le.
Qed.

Lemma step_registry_ok (h : host) w e : registry_ok w -> registry_ok (step h w e).
Proof.
  intros [Htok Htim].
  destruct (step_cases h w e) as [(Hn & Hv & Ht)|[(random & Hn & Hv & Ht)|[dt ->]]].
  - unfold registry_ok. by rewrite Hn, Hv, Ht.
  - unfold registry_ok. rewrite Hn, Hv, Ht. split.
    + intros tok [->%elem_of_singleton|Hin]%elem_of_union; [|by apply Htok].
      by exists (now w), random.
    + intros due tok [Hin|[[= <- <-]|[]]]%in_app_iff; [by apply Htim|].
      pose proof token_lifetime_pos.
      replace (now w + token_lifetime - token_lifetime) with (now w) by lia.
      split; [by exists random|lia].
  - split.
    + intros tok [Hin _]%elapse_tokens.
      destruct (Htok tok Hin) as (t & random & -> & Ht).
      exists t, random. rewrite elapse_now. split; [done|lia].
    + intros due tok [Hin Hdue]%elapse_timers.
      destruct (Htim due tok Hin) as [Hr Hb].
      rewrite elapse_now. simpl in Hdue. split; [done|lia].
Qed.

Lemma boot_registry_ok t0 d : registry_ok (boot t0 d).
Proof.
  unfold boot, initializeDataFile, try_catch, fs_access, fs_writeFile. simpl.
  destruct d; split; simpl; try done; intros tok Hin;
    by apply not_elem_of_empty in Hin.
Qed.

Lemma run_registry_ok (h : host) es w : registry_ok w -> registry_ok (run h es w).
Proof.
  revert w; induction es as [|e es IH]; intros w Hw; [done|].
  apply IH. by apply step_registry_ok.
Qed.

Lemma step_tracks (h : host) T random w e :
  registry_ok w ->
  tracks T (make_token T random) w -> tracks T (make_token T random) (step h w e).
Proof.
  intros [Htok Htim] (Hle & Hlive & Hdead).
  pose proof token_lifetime_pos as Hpos.
  destruct (step_cases h w e) as [(Hn & Hv & Ht)|[(random' & Hn & Hv & Ht)|[dt ->]]].
  - unfold tracks. by rewrite Hn, Hv, Ht.
  - unfold tracks. rewrite Hn, Hv, Ht. split_and!; [done|..].
    + intros [Hin Htm]%Hlive. split; [apply elem_of_union; by right|].
      apply in_app_iff. by left.
    + intros Hexp. specialize (Hdead Hexp).
      intros [Heq%elem_of_singleton|Hin]%elem_of_union; [|done].
      apply make_token_time in Heq. lia.
  - unfold tracks. rewrite elapse_now. split_and!; [lia|..].
    + intros Hlt. destruct Hlive as [Hin Htm]; [lia|]. split.
      * apply elapse_tokens. split; [done|].
        intros [due tok] Hd Hdue Heq. simpl in *. subst tok.
        destruct (Htim _ _ Hd) as [[random' Heq] _].
        apply make_token_time in Heq. lia.
      * apply elapse_timers. split; [done|]. simpl. lia.
    + intros Hexp [Hin Hnot]%elapse_tokens.
      destruct (decide (now w < T + token_lifetime)) as [Hlt|Hge].
      * destruct (Hlive Hlt) as [_ Htm].
        apply (Hnot _ Htm); simpl; [lia|done].
      * apply Hdead; [lia|done].
Qed.

Lemma run_tracks (h : host) T random es w :
  registry_ok w ->
  tracks T (make_token T random) w -> tracks T (make_token T random) (run h es w).
Proof.
  revert w; induction es as [|e es IH]; intros w Hw Ht; [done|].
  apply IH; [by apply step_registry_ok|by apply step_tracks].
Qed.

(** C8: a login with a developer code, in any state the server reaches
    after its start, answers 200 with a token that [validTokens.has] finds
    at once; after any further events the token is still found while less
    than 24 hours have passed since the login, and is not found once 24
    hours have passed. *)
Theorem token_valid_for_24_hours (h : host) (t0 : Z) (d : disk)
    (before after : list event) (code random : string) :
  In code DEVELOPER_CODES ->
  let w0 := run h before (boot t0 d) in
  let out := handle h (POST_dev_login (Value.Text code) random) w0 in
  let w2 := run h after out.2 in
  exists token,
    out.1 = inr {| status := 200;
                   body := Granted "Developer access granted" token |}
    /\ (validTokens_has token out.2).1 = inr true
    /\ (now w2 < now w0 + token_lifetime ->
        (validTokens_has token w2).1 = inr true)
    /\ (now w0 + token_lifetime <= now w2 ->
        (validTokens_has token w2).1 = inr false).
Proof.
  intros Hc w0 out w2.
  assert (Hok0 : registry_ok w0) by apply run_registry_ok, boot_registry_ok.
  assert (Hout : out = dev_login (Value.Text code) random w0) by done.
  rewrite (dev_login_accepts _ _ _ Hc) in Hout.
  set (tok := make_token (now w0) random) in *.
  set (w1 := set_timers _ _) in Hout.
  assert (Hw1 : out.2 = w1) by (by rewrite Hout).
  assert (Hok1 : registry_ok w1).
  { rewrite <- Hw1.
    apply (step_registry_ok h w0 (Request (POST_dev_login (Value.Text code) random)) Hok0). }
  assert (Hin1 : tok ∈ validTokens w1).
  { apply elem_of_union. left. by apply elem_of_singleton. }
  assert (Ht1 : tracks (now w0) tok w1).
  { pose proof token_lifetime_pos. split_and!; simpl.
    - done.
    - intros _. split; [done|]. apply in_app_iff. right. by left.
    - lia. }
  assert (Ht2 : tracks (now w0) tok w2).
  { subst w2. rewrite Hw1. by apply run_tracks. }
  destruct Ht2 as (_ & Hlive & Hdead).
  exists tok. rewrite Hout. simpl. split_and!.
  - done.
  - f_equal. by apply bool_decide_eq_true_2.
  - intros Hlt. f_equal. apply bool_decide_eq_true_2. by apply Hlive.
  - intros Hge. f_equal. apply bool_decide_eq_false_2. by apply Hdead.
Qed.

(** C3: for the three routes behind the middleware, in any state the
    server reaches after its start: when the Authorization header is absent,
    does not start with the Bearer scheme, or carries a token that is not in
    the set of valid tokens, the answer is 401 and the world is as it was (the
    file is neither read nor written); when the header carries the scheme and
    a token of the set, the request is answered by the operation. *)
Theorem privileged_requests_need_a_valid_token (h : host) (t0 : Z) (d : disk)
    (es : list event) (r : request) (auth : option string)
    (operation : M response) :
  privileged h r = Some (auth, operation) ->
  let w := run h es (boot t0 d) in
  ((auth = None
    \/ exists hd, auth = Some hd
                 /\ (startsWith hd "Bearer " = false
                     \/ substring_from 7 hd ∉ validTokens w))
   -> handle h r w
      = (inr {| status := 401;
                body := Message "Unauthorized - Developer access required" |}, w))
  /\ ((exists hd, auth = Some hd /\ startsWith hd "Bearer " = true
                 /\ substring_from 7 hd ∈ validTokens w)
      -> handle h r w = operation w).
Proof.
  intros Hp w.
  assert (Hok : registry_ok w) by apply run_registry_ok, boot_registry_ok.
  assert (Hh : handle h r w = checkDeveloperAuth auth operation w).
  { destruct r; simpl in Hp; try done; by injection Hp as <- <-. }
  rewrite Hh. clear Hh Hp. split.
  - intros [->|(hd & -> & Hbad)]; [done|].
    unfold checkDeveloperAuth, bind, bearer_token. simpl.
    destruct (is_empty hd); [done|]. simpl.
    destruct Hbad as [->|Hnot]; [done|].
    destruct (startsWith hd "Bearer "); [|done]. simpl.
    rewrite bool_decide_eq_false_2 by done. by rewrite orb_true_r.
  - intros (hd & -> & Hs & Hin).
    apply checkDeveloperAuth_pass. exists (substring_from 7 hd).
    split; [f_equal; by apply startsWith_Bearer|]. split; [|done].
    destruct Hok as [Htok _]. destruct (Htok _ Hin) as (t & rnd & -> & _).
    apply make_token_nonempty.
Qed.

(** ** Integers printed in decimal are read back by [parseInt] *)

Lemma pretty_N_char_value y :
  (y < 10)%N ->
  is_digit (pretty_N_char y) = true
  /\ Z.of_N (code (pretty_N_char y)) - 48 = Z.of_N y.
Proof.
  intros Hy.
  assert (y = 0 \/ y = 1 \/ y = 2 \/ y = 3 \/ y = 4 \/ y = 5 \/ y = 6
          \/ y = 7 \/ y = 8 \/ y = 9)%N as H by lia.
  destruct H as [->|[->|[->|[->|[->|[->|[->|[->|[->| ->]]]]]]]]]; done.
Qed.

Lemma pretty_N_go_digits x s :
  all_digits s = true ->
  all_digits (pretty_N_go x s) = true
  /\ decimal_value 0 (pretty_N_go x s) = decimal_value (Z.of_N x) s.
Proof.
  revert s. induction (N.lt_wf_0 x) as [x _ IH]; intros s Hs.
  destruct (decide (x = 0%N)) as [->|Hx]; [by rewrite pretty_N_go_0|].
  rewrite pretty_N_go_step by lia.
  destruct (pretty_N_char_value (x `mod` 10)%N) as [Hc Hv].
  { apply N.mod_lt. lia. }
  destruct (IH (x `div` 10)%N) with (s := String (pretty_N_char (x `mod` 10)) s)
    as [Hd Hval].
  - apply N.div_lt; lia.
  - simpl. by rewrite Hc, Hs.
  - split; [done|]. rewrite Hval. simpl. f_equal. rewrite Hv.
    rewrite (N.div_mod x 10) at 3 by lia. lia.
Qed.

Lemma pretty_nonneg_digits (n : Z) :
  0 <= n ->
  all_digits (pretty n) = true /\ decimal_value 0 (pretty n) = n
  /\ pretty n <> ""%string.
Proof.
  intros Hn. destruct n as [|p|p]; [done| |lia].
  unfold pretty, pretty_Z, pretty, pretty_positive, pretty, pretty_N.
  case_decide; [done|].
  destruct (pretty_N_go_digits (N.pos p) "" eq_refl) as [Hd Hv].
  split; [done|]. split; [by rewrite Hv|].
  intros Hnil. rewrite Hnil in Hv. simpl in Hv. lia.
Qed.

Lemma all_digits_not_hex s : all_digits s = true -> hex_prefixed s = false.
Proof.
  unfold hex_prefixed, startsWith.
  destruct s as [|c1 [|c2 s]]; simpl; try done.
  - destruct (decide ("0"%char = c1)); done.
  - destruct (decide ("0"%char = c1)) as [<-|]; [|done].
    destruct (decide ("x"%char = c2)) as [<-|]; [done|].
    destruct (decide ("X"%char = c2)) as [<-|]; done.
Qed.

Lemma read_digits_all ds :
  ds <> ""%string -> all_digits ds = true ->
  read_digits 10 None ds = Some (decimal_value 0 ds).
Proof.
  intros Hne Hd. destruct ds as [|c ds]; [done|].
  simpl in Hd. apply andb_true_iff in Hd as [Hc Hd].
  unfold read_digits; fold read_digits.
  destruct (is_digit_value c Hc) as [-> Hv].
  replace (Z.of_N (code c) - 48 <? 10) with true by (symmetry; apply Z.ltb_lt; lia).
  rewrite <- (string_app_empty_r ds) at 1.
  rewrite read_digits_decimal by done. done.
Qed.

(** parseInt reads the decimal rendering of an integer as the double
    nearest to it. *)
Lemma parseInt_pretty (n : Z) : parseInt (pretty n) = Number_of n.
Proof.
  destruct (Z.le_gt_cases 0 n) as [Hn|Hn].
  - destruct (pretty_nonneg_digits n Hn) as (Hd & Hv & Hne).
    rewrite <- (string_app_empty_r (pretty n)).
    rewrite parseInt_decimal_prefix; try done; [by rewrite Hv|].
    rewrite string_app_empty_r. by apply all_digits_not_hex.
  - destruct n as [|p|p]; try lia.
    change (pretty (Z.neg p)) with ("-" +:+ pretty (Z.pos p)).
    destruct (pretty_nonneg_digits (Z.pos p)) as (Hd & Hv & Hne); [lia|].
    unfold parseInt. rewrite string_app_cons.
    change (trimStart (String "-" ("" +:+ pretty (Z.pos p))))
      with (String "-" (pretty (Z.pos p))).
    change (startsWith (String "-" (pretty (Z.pos p))) "-") with true.
    cbn [orb substring_from].
    pose proof (all_digits_not_hex _ Hd) as Hx. unfold hex_prefixed in Hx.
    rewrite Hx. rewrite read_digits_all by done. rewrite Hv. done.
Qed.

Lemma parseInt_pretty_safe (n : Z) :
  Z.abs n <= 2 ^ 53 -> parseInt (pretty n) = Finite n.
Proof. intros H. by rewrite parseInt_pretty, Number_of_safe. Qed.

(** ** Ids repeat in the end *)

Lemma run_cons (h : host) e es w : run h (e :: es) w = run h es (step h w e).
Proof. done. Qed.

Lemma one_record_create h first w :
  (1 <= max_arguments h)%N ->
  one_record first w ->
  exists r r',
    file w = Holds (JSON_stringify [r]) /\ id r = first
    /\ id r' = to_double (first + 1)
    /\ (handle h (POST_records ama) w).1
       = inr {| status := 201; body := Created "Record created successfully" r' |}
    /\ file (step h w (Request (POST_records ama)))
       = Holds (JSON_stringify [r; r'])
    /\ write_error (step h w (Request (POST_records ama))) = None
    /\ validTokens (step h w (Request (POST_records ama))) = validTokens w.
Proof.
  intros Hmax ((r & Hfile & Hid) & Hwe & Hin).
  assert (Hl : loaded w = Array [r]) by (unfold loaded; by rewrite Hfile).
  assert (Hwf : write_failure (log ReadFile w) = None).
  { unfold write_failure. simpl. by rewrite Hfile. }
  cbn [step handle].
  change ama with (body_of "Ama" "Accra" "0501234567" "No power").
  rewrite post_records_accepts by reflexivity.
  rewrite Hl, post_records_resumed_texts, Hwf
    by (unfold spreadable; simpl; lia).
  eexists r, _. split_and!; [done|done| |reflexivity|reflexivity|done|done].
  simpl. unfold fresh_id. simpl. by rewrite or_zero_id, Hid.
Qed.

Lemma turnover_step h first w :
  (2 <= max_arguments h)%N ->
  1 <= first < 2 ^ 53 ->
  one_record first w ->
  all_succeed h [Request (POST_records ama);
                 Request (DELETE_records a_header (pretty first))] w
  /\ one_record (first + 1)
       (step h (step h w (Request (POST_records ama)))
          (Request (DELETE_records a_header (pretty first)))).
Proof.
  intros Hmax Hfirst Hw.
  destruct (one_record_create h first w)
    as (r & r' & Hf & Hid & Hid' & Hresp & Hf1 & He1 & Hv1); [lia|done|].
  cbn [all_succeed]. rewrite Hresp.
  set (w1 := step h w (Request (POST_records ama))) in *.
  assert (Ha1 : authorized w1 a_header).
  { exists a_token. split; [done|]. split; [done|].
    rewrite Hv1. by destruct Hw as (_ & _ & ?). }
  cbn [step]. rewrite handle_DELETE_eq, delete_record_eq by done.
  assert (Hl1 : loaded w1 = Array [r; r']) by (unfold loaded; by rewrite Hf1).
  rewrite Hl1, delete_record_resumed_Array.
  rewrite parseInt_pretty_safe by lia.
  cbn [findIndex strict_eq]. rewrite Hid, Z.eqb_refl.
  assert (Hwf : write_failure (log ReadFile w1) = None).
  { unfold write_failure. simpl. by rewrite Hf1. }
  rewrite Hwf. unfold one_record. split_and!.
  - eexists. split; [done|]. by right.
  - eexists. split; [done|]. by left.
  - done.
  - exists r'. split; [done|]. rewrite Hid'. apply to_double_safe. lia.
  - done.
  - simpl. rewrite Hv1. by destruct Hw as (_ & _ & ?).
Qed.

Lemma all_succeed_app h es es' w :
  all_succeed h (es ++ es') w
  <-> all_succeed h es w /\ all_succeed h es' (run h es w).
Proof.
  revert w. induction es as [|e es IH]; intros w; simpl; [tauto|].
  rewrite IH. change (run h (e :: es) w) with (run h es (step h w e)). tauto.
Qed.

Lemma turnover_run h n first w :
  (2 <= max_arguments h)%N ->
  1 <= first -> first + Z.of_nat n <= 2 ^ 53 ->
  one_record first w ->
  all_succeed h (turnover n first) w
  /\ one_record (first + Z.of_nat n) (run h (turnover n first) w).
Proof.
  intros Hmax. revert first w.
  induction n as [|n IH]; intros first w Hfirst Hn Hw.
  - simpl. by rewrite Z.add_0_r.
  - destruct (turnover_step h first w) as [Hs Hw']; [done|lia|done|].
    destruct (IH (first + 1) _ ltac:(lia) ltac:(lia) Hw') as [Hs' Hw''].
    cbn [turnover]. rewrite !run_cons.
    replace (first + Z.of_nat (S n)) with (first + 1 + Z.of_nat n) by lia.
    split; [|done].
    cbn [all_succeed] in *. destruct Hs as (H1 & H2 & _). done.
Qed.

(** After 2^53 records have been created, the next one gets the id of the
    one before it; every request on the way is answered 200 or 201. *)
Lemma long_run_repeats_an_id :
  all_succeed host_utc long_run (boot late_october Missing)
  /\ exists r r',
       file (run host_utc long_run (boot late_october Missing))
       = Holds (JSON_stringify [r; r'])
       /\ id r = 2 ^ 53 /\ id r' = 2 ^ 53.
Proof.
  unfold long_run.
  set (login := Request (POST_dev_login (Value.Text "letmein") "k3j9x")).
  set (create := Request (POST_records ama)).
  set (w0 := boot late_october Missing).
  set (w2 := run host_utc [login; create] w0).
  assert (Hw2 : one_record 1 w2).
  { split; [|split].
    - exists (created 1 late_october "Ama" "Accra" "0501234567" "No power").
      split; [vm_compute; reflexivity|reflexivity].
    - reflexivity.
    - vm_compute. reflexivity. }
  assert (Hn : 1 + Z.of_nat (Z.to_nat (2 ^ 53 - 1)) = 2 ^ 53).
  { rewrite Z2Nat.id; [lia|]. by vm_compute. }
  destruct (turnover_run host_utc (Z.to_nat (2 ^ 53 - 1)) 1 w2) as [Hs Hw3];
    [by vm_compute|lia|lia|done|].
  rewrite Hn in Hw3. clear Hn.
  remember (turnover (Z.to_nat (2 ^ 53 - 1)) 1) as T eqn:HT. clear HT.
  set (w3 := run host_utc T w2) in *.
  destruct (one_record_create host_utc (2 ^ 53) w3)
    as (r & r' & _ & Hid & Hid' & Hresp & Hf & _ & _); [by vm_compute|done|].
  change (login :: create :: T ++ [create])
    with ([login; create] ++ T ++ [create]).
  rewrite (all_succeed_app host_utc [login; create] (T ++ [create]) w0).
  rewrite (run_app host_utc [login; create] (T ++ [create]) w0).
  fold w2.
  rewrite (all_succeed_app host_utc T [create] w2).
  rewrite (run_app host_utc T [create] w2).
  fold w3.
  split; [split; [|split; [exact Hs|]]|].
  - subst login create. cbn [all_succeed]. split; [|split; [|exact I]].
    + exists {| status := 200;
                body := Granted "Developer access granted" a_token |}.
      split; [vm_compute; reflexivity|]. left. reflexivity.
    + exists {| status := 201;
                body := Created "Record created successfully"
                          (created 1 late_october "Ama" "Accra" "0501234567"
                             "No power") |}.
      split; [vm_compute; reflexivity|]. right. reflexivity.
  - subst create. cbn [all_succeed]. rewrite Hresp. split; [|exact I].
    eexists. split; [reflexivity|]. right. reflexivity.
  - exists r, r'. split; [exact Hf|]. split; [exact Hid|].
    rewrite Hid'. reflexivity.
Qed.

Lemma creates_turnover n first : creates (turnover n first) = n.
Proof.
  revert first. induction n as [|n IH]; intros first; [done|].
  cbn [turnover]. rewrite !creates_cons. cbn [is_create]. by rewrite IH.
Qed.

Lemma creates_long_run : Z.of_nat (creates long_run) = 2 ^ 53 + 1.
Proof.
  unfold long_run. rewrite !creates_cons, creates_app, creates_turnover.
  cbn [is_create]. rewrite creates_cons. cbn [is_create].
  change (creates []) with 0%nat.
  rewrite !Nat2Z.inj_add, Z2Nat.id by (by vm_compute). lia.
Qed.

(** ** The properties at concrete inputs

    The host reads ISO dates and has a fixed offset of local time. *)

Lemma world_with_authorized rs : authorized (world_with rs) a_header.
Proof.
  exists a_token. split; [reflexivity|]. split; [discriminate|].
  change (a_token ∈ ({[a_token]} : gset string)).
  apply elem_of_singleton. reflexivity.
Defined.



Lemma create_rejects_invalid_witness :
  exists msg,
    post_records host_utc
      {| Body.vendorName := Value.Undefined; Body.location := Value.Text "Accra";
         Body.phone := Value.Text "0501234567";
         Body.issue := Value.Text "No power" |}
      (boot late_october Missing)
    = (inr {| status := 400; body := Message msg |}, boot late_october Missing).
Proof.
  apply (proj1 (create_rejects_invalid host_utc (boot late_october Missing)
                  {| Body.vendorName := Value.Undefined;
                     Body.location := Value.Text "Accra";
                     Body.phone := Value.Text "0501234567";
                     Body.issue := Value.Text "No power" |})).
  left. left. reflexivity.
Defined.

(** A vendor name of three spaces is empty after trimming, and the request
    is answered 201 with a record whose vendor name is empty. *)
Lemma create_accepts_whitespace_only :
  blank (Body.vendorName spaces)
  /\ (post_records host_utc spaces (boot late_october Missing)).1
     = inr {| status := 201;
              body := Created "Record created successfully"
                        {| id := 1; vendorName := ""; location := "Accra";
                           phone := "0501234567"; issue := "No power";
                           date := "2026-10-31T23:00:00.000Z" |} |}.
Proof. split; reflexivity. Qed.

Lemma privileged_requests_need_a_valid_token_witness :
  handle host_utc (GET_records None) (run host_utc [] (boot 0 Missing))
  = (inr {| status := 401;
            body := Message "Unauthorized - Developer access required" |},
     run host_utc [] (boot 0 Missing)).
Proof.
  apply (proj1 (privileged_requests_need_a_valid_token host_utc 0 Missing []
                  (GET_records None) None get_records eq_refl)).
  left. reflexivity.
Defined.

Lemma ids_stay_distinct_witness :
  exists records,
    (readRecords (run host_utc a_busy_hour (boot late_october Missing))).1
    = inr (Array records)
    /\ List.NoDup (map id records)
    /\ map id records = [2; 3].
Proof.
  destruct (ids_stay_distinct host_utc (boot late_october Missing) a_busy_hour)
    as (records & Hr & Hnd).
  - reflexivity.
  - vm_compute. discriminate.
  - exists records. split; [exact Hr|]. split; [exact Hnd|].
    vm_compute in Hr. injection Hr as <-. reflexivity.
Defined.

(** C4: the run [long_run] starts on the empty collection and has 2^53 + 1
    create requests; every request of it is answered 200 or 201, and it
    ends on two records with the same id. *)
Lemma ids_repeat_after_2_53_creates :
  (readRecords (boot late_october Missing)).1 = inr (Array [])
  /\ Z.of_nat (creates long_run) = 2 ^ 53 + 1
  /\ all_succeed host_utc long_run (boot late_october Missing)
  /\ exists r r',
       (readRecords (run host_utc long_run (boot late_october Missing))).1
       = inr (Array [r; r'])
       /\ id r = id r'.
Proof.
  destruct long_run_repeats_an_id as (Hs & r & r' & Hf & Hid & Hid').
  split; [reflexivity|]. split; [exact creates_long_run|]. split; [exact Hs|].
  exists r, r'. rewrite readRecords_loaded, (loaded_Holds _ _ Hf).
  split; [reflexivity|]. by rewrite Hid, Hid'.
Qed.

(** C5, on a host two hours ahead of UTC: a record is created at
    2026-10-31T23:00Z, which is 1 November in local time; eleven hours later,
    still 1 November in local time, the stats count it in [today] and not in
    [thisMonth], because the month is compared in UTC and the day in local
    time. *)
Theorem stats_today_outside_this_month :
  let w := run host_plus2h a_day (boot late_october Missing) in
  (readRecords w).1 = inr (Array [record_of 1 "2026-10-31T23:00:00.000Z"])
  /\ iso_of (now w) = "2026-11-01T10:00:00.000Z"%string
  /\ toDateString plus2h (new_Date host_plus2h "2026-10-31T23:00:00.000Z")
     = "Sun Nov 01 2026"%string
  /\ toDateString plus2h (Some (now w)) = "Sun Nov 01 2026"%string
  /\ (handle host_plus2h (GET_stats a_header) w).1
     = inr {| status := 200; body := Stats 1 1 0 |}.
Proof. repeat split; vm_compute; reflexivity. Qed.





Lemma token_valid_for_24_hours_witness :
  let w0 := run host_utc [] (boot late_october Missing) in
  let out := handle host_utc
               (POST_dev_login (Value.Text "letmein") "k3j9x"%string) w0 in
  let w2 := run host_utc [Elapse 86400000] out.2 in
  exists token,
    out.1 = inr {| status := 200;
                   body := Granted "Developer access granted" token |}
    /\ (validTokens_has token out.2).1 = inr true
    /\ (now w2 < now w0 + token_lifetime ->
        (validTokens_has token w2).1 = inr true)
    /\ (now w0 + token_lifetime <= now w2 ->
        (validTokens_has token w2).1 = inr false).
Proof.
  apply (token_valid_for_24_hours host_utc late_october Missing []
           [Elapse 86400000] "letmein" "k3j9x").
  left. reflexivity.
Defined.

Lemma stats_fails_on_invalid_date_witness :
  (handle host_utc (GET_stats a_header)
     (world_with [record_of 1 "yesterday"])).1
  = inr {| status := 500;
           body := Failure "Error getting statistics" RangeError_time |}.
Proof.
  apply (stats_fails_on_invalid_date host_utc
           (world_with [record_of 1 "yesterday"]) a_header
           [record_of 1 "yesterday"]).
  - apply world_with_authorized.
  - reflexivity.
  - exists (record_of 1 "yesterday"). split; [left; reflexivity|reflexivity].
Defined.

(** * Further properties

    ** Start-up and login *)


(** X3: the login handler never touches the data file.  It answers 200 with
    a new token, which it adds to the registry, when the code is one of the
    listed developer codes; for a missing, empty or unlisted code, or one
    that is not a text, it answers 401 and changes nothing. *)
Theorem login_needs_a_listed_code (code : Value.t) (random : string)
    (w : world) :
  let out := dev_login code random w in
  file out.2 = file w /\ io_log out.2 = io_log w
  /\ ((exists c, code = Value.Text c /\ In c DEVELOPER_CODES
                 /\ out.1 = inr {| status := 200;
                                   body := Granted "Developer access granted"
                                             (make_token (now w) random) |}
                 /\ validTokens out.2 = {[make_token (now w) random]} ∪ validTokens w)
      \/ ((forall c, code = Value.Text c -> ~ In c DEVELOPER_CODES)
          /\ out = (inr {| status := 401;
                           body := Message "Invalid developer code" |}, w))).
Proof.
  simpl.
  destruct code as [c| | |t s].
  - destruct (decide (c ∈ DEVELOPER_CODES)) as [Hc|Hc].
    + apply list_elem_of_In in Hc.
      rewrite (dev_login_accepts c random w Hc). split_and!; try done.
      left. by exists c.
    + unfold dev_login, try_catch, bind.
      change (includes DEVELOPER_CODES (Value.Text c))
        with (bool_decide (c ∈ DEVELOPER_CODES)).
      rewrite bool_decide_eq_false_2 by done. rewrite orb_true_r.
      split_and!; try done. right. split; [|done].
      intros c' [= <-] Hin. by apply Hc, list_elem_of_In.
  - split_and!; try done. right. split; [|done]. by intros c [=].
  - split_and!; try done. right. split; [|done]. by intros c [=].
  - unfold dev_login, try_catch, bind. cbn [includes negb].
    rewrite orb_true_r. split_and!; try done. right. split; [|done].
    by intros c [=].
Qed.

Lemma make_token_inj t r t' r' :
  make_token t r = make_token t' r' -> t = t' /\ r = r'.
Proof.
  intros H. pose proof (make_token_time _ _ _ _ H) as <-. split; [done|].
  unfold make_token in H.
  apply (inj (String.app _)) in H. apply (inj (String.app _)) in H.
  by apply (inj (String.app _)) in H.
Qed.

Lemma dev_login_granted code random w resp :
  (dev_login code random w).1 = inr resp -> status resp = 200 ->
  resp = {| status := 200;
            body := Granted "Developer access granted" (make_token (now w) random) |}.
Proof.
  unfold dev_login, try_catch, bind.
  destruct (Value.falsy code || _).
  - intros [= <-]. done.
  - intros [= <-]. done.
Qed.

(** X4: two logins that are granted the same token took place at the same
    instant of the clock and drew the same random suffix. *)
Theorem logins_share_a_token_only_at_the_same_instant
    (code1 code2 : Value.t) (random1 random2 token : string)
    (w1 w2 : world) :
  (dev_login code1 random1 w1).1
    = inr {| status := 200; body := Granted "Developer access granted" token |} ->
  (dev_login code2 random2 w2).1
    = inr {| status := 200; body := Granted "Developer access granted" token |} ->
  now w1 = now w2 /\ random1 = random2.
Proof.
  intros H1 H2.
  apply dev_login_granted in H1; [|done]. apply dev_login_granted in H2; [|done].
  apply make_token_inj. congruence.
Qed.

Lemma authorized_same_registry w w' auth :
  same_registry w w' -> authorized w auth -> authorized w' auth.
Proof. intros (_ & Hv & _) (tok & ? & ? & ?). exists tok. by rewrite Hv. Qed.

Lemma handle_GET_eq h w auth :
  authorized w auth ->
  handle h (GET_records auth) w
  = (inr {| status := 200; body := Records (loaded w) |}, log ReadFile w).
Proof.
  intros Ha. cbn [handle]. by rewrite checkDeveloperAuth_pass, get_records_eq.
Qed.

(** ** Listing, creating and deleting *)

(** X7: an authorized listing answers 200 with what a load returns; asked
    again it answers the same, and the two requests leave the file as it was
    and only read it, once each. *)
Theorem list_returns_the_stored_collection (h : host) (w : world)
    (auth : option string) (records : collection) :
  authorized w auth ->
  (readRecords w).1 = inr records ->
  let first := handle h (GET_records auth) w in
  let second := handle h (GET_records auth) first.2 in
  first.1 = inr {| status := 200; body := Records records |}
  /\ second.1 = first.1
  /\ file second.2 = file w
  /\ io_log second.2 = io_log w ++ [ReadFile; ReadFile].
Proof.
  intros Ha. rewrite readRecords_loaded. intros [= <-]. cbv zeta.
  rewrite (handle_GET_eq h w auth Ha). cbn [fst snd].
  assert (Ha' : authorized (log ReadFile w) auth) by done.
  rewrite (handle_GET_eq h _ auth Ha').
  split_and!; try done. simpl. by rewrite <- app_assoc.
Qed.

(** X8: when the create handler has loaded the array [records] and its
    write succeeds, the authorized listing that follows the write returns
    [records] with the new record at its end, whatever the file held when
    the handler went on: what was written since the handler loaded is
    overwritten. *)
Theorem create_then_list (h : host) (w : world) (v l p i : string)
    (auth : option string) (records : list record) :
  authorized w auth ->
  spreadable h records ->
  write_failure w = None ->
  let out := post_records_resumed h (body_of v l p i) (Array records) w in
  exists r,
    out.1 = inr {| status := 201; body := Created "Record created successfully" r |}
    /\ (handle h (GET_records auth) out.2).1
       = inr {| status := 200; body := Records (Array (records ++ [r])) |}.
Proof.
  intros Ha Hs Hw. cbv zeta.
  rewrite (post_records_resumed_texts h v l p i records w Hs), Hw.
  eexists. split; [done|]. cbn [snd].
  rewrite handle_GET_eq; done.
Qed.


Lemma findIndex_last {A} (p : A -> bool) l x :
  (forall y, In y l -> p y = false) -> p x = true ->
  findIndex p (l ++ [x]) = Some (length l).
Proof.
  intros Hl Hx. induction l as [|a l IH]; simpl.
  - by rewrite Hx.
  - rewrite (Hl a) by (by left). rewrite IH; [done|]. intros y Hy. apply Hl. by right.
Qed.

Lemma delete_last {A} (l : list A) x : delete (length l) (l ++ [x]) = l.
Proof.
  induction l as [|a l IH]; [done|].
  change (a :: delete (length l) (l ++ [x]) = a :: l). by rewrite IH.
Qed.

Lemma write_failure_None w :
  write_failure w = None -> write_error w = None /\ file w <> Denied.
Proof. unfold write_failure. destruct (file w); done. Qed.

Lemma write_failure_Holds t w w' :
  file w' = Holds t -> write_error w' = write_error w ->
  write_failure w = None -> write_failure w' = None.
Proof.
  intros Hf He [Hw _]%write_failure_None. unfold write_failure.
  by rewrite Hf, He.
Qed.

Lemma fresh_id_bound rs :
  Forall (fun r => safe (id r)) rs -> Z.abs (fresh_id rs) <= 2 ^ 53.
Proof.
  intros Hs. pose proof (fresh_id_safe rs Hs) as H.
  destruct rs as [|r rs]; [rewrite H; lia|].
  destruct H as (m & Hin & _ & ->).
  apply in_map_iff in Hin as (x & <- & Hx).
  rewrite Forall_forall in Hs. apply list_elem_of_In, Hs in Hx.
  unfold safe in Hx. lia.
Qed.

Lemma handle_POST_texts h v l p i rs w :
  rejects (body_of v l p i) = false ->
  loaded w = Array rs -> spreadable h rs -> write_failure w = None ->
  let r := created (fresh_id rs) (now w) v l p i in
  handle h (POST_records (body_of v l p i)) w
  = (inr {| status := 201; body := Created "Record created successfully" r |},
     set_file (Holds (JSON_stringify (rs ++ [r])))
       (log (WriteFile (JSON_stringify (rs ++ [r]))) (log ReadFile w))).
Proof.
  intros Hb Hl Hs Hw. cbn [handle]. rewrite post_records_accepts by done.
  rewrite Hl, post_records_resumed_texts by done.
  change (write_failure (log ReadFile w)) with (write_failure w).
  by rewrite Hw.
Qed.

(** X13: on a file that can be written and holds an array with safe ids,
    deleting a record that was just created, by its id printed in decimal,
    answers 200 and restores the array as it was; the next record created is
    then given the deleted record's id again. *)
Theorem create_then_delete_restores (h : host) (w : world) (v l p i : string)
    (auth : option string) (records : list record) :
  authorized w auth ->
  (readRecords w).1 = inr (Array records) ->
  rejects (body_of v l p i) = false ->
  Forall (fun r => safe (id r)) records ->
  spreadable h records ->
  write_failure w = None ->
  let posted := handle h (POST_records (body_of v l p i)) w in
  exists r,
    posted.1
      = inr {| status := 201; body := Created "Record created successfully" r |}
    /\ let out := handle h (DELETE_records auth (pretty (id r))) posted.2 in
       out.1 = inr {| status := 200; body := Message "Record deleted successfully" |}
       /\ (readRecords out.2).1 = inr (Array records)
       /\ forall v' l' p' i',
            rejects (body_of v' l' p' i') = false ->
            exists r',
              (handle h (POST_records (body_of v' l' p' i')) out.2).1
                = inr {| status := 201;
                         body := Created "Record created successfully" r' |}
              /\ id r' = id r.
Proof.
  intros Ha. rewrite readRecords_loaded. intros [= Hl] Hb Hsafe Hs Hw.
  cbv zeta. rewrite (handle_POST_texts h v l p i records w) by done.
  set (r := created (fresh_id records) (now w) v l p i). exists r.
  split; [done|]. cbn [snd].
  set (w1 := set_file _ _).
  assert (Ha1 : authorized w1 auth) by done.
  assert (Hw1 : write_failure w1 = None).
  { by apply (write_failure_Holds (JSON_stringify (records ++ [r])) w). }
  rewrite handle_DELETE_eq, delete_record_eq by done.
  change (loaded w1) with (Array (records ++ [r])).
  rewrite delete_record_resumed_Array.
  rewrite parseInt_pretty_safe by (apply fresh_id_bound, Hsafe).
  rewrite findIndex_last; cycle 1.
  { intros y Hy. cbn beta. unfold strict_eq. apply Z.eqb_neq.
    pose proof (fresh_id_above records Hsafe y Hy). simpl. lia. }
  { simpl. apply Z.eqb_refl. }
  rewrite delete_last.
  change (write_failure (log ReadFile w1)) with (write_failure w1). rewrite Hw1.
  cbn [fst snd]. split; [done|]. rewrite readRecords_loaded. split; [done|].
  intros v' l' p' i' Hb'.
  set (w2 := set_file _ _).
  assert (Hw2 : write_failure w2 = None).
  { by apply (write_failure_Holds (JSON_stringify records) w1). }
  rewrite (handle_POST_texts h v' l' p' i' records w2) by done.
  eexists. split; [done|]. done.
Qed.

(** X14: on a file that can be written and holds an array with distinct
    ids, repeating an authorized delete with the same parameter answers 404
    and only reads the file, whether or not the first one removed a
    record. *)
Theorem second_delete_is_not_found (h : host) (w : world) (auth : option string)
    (param : string) (records : list record) :
  authorized w auth ->
  (readRecords w).1 = inr (Array records) ->
  List.NoDup (map id records) ->
  write_failure w = None ->
  let first := handle h (DELETE_records auth param) w in
  handle h (DELETE_records auth param) first.2
  = (inr {| status := 404; body := Message "Record not found" |},
     log ReadFile first.2).
Proof.
  intros Ha. rewrite readRecords_loaded. intros [= Hl] Hnd Hw. cbv zeta.
  rewrite (handle_DELETE_eq h w) by done.
  assert (Ha' : authorized (delete_record param w).2 auth).
  { eapply authorized_same_registry; [|done]. apply delete_record_change. }
  rewrite handle_DELETE_eq by done.
  rewrite (delete_record_eq param (delete_record param w).2).
  assert (Hcase : exists rs', loaded (delete_record param w).2 = Array rs'
            /\ forall x, In x rs' -> strict_eq (id x) (parseInt param) = false).
  { rewrite delete_record_eq, Hl, delete_record_resumed_Array.
    change (write_failure (log ReadFile w)) with (write_failure w). rewrite Hw.
    destruct (findIndex _ records) as [i|] eqn:Hf.
    - apply findIndex_Some in Hf as (before & y & after & Hs & Hy & Hb & Hd).
      exists (delete i records). split; [done|]. rewrite Hd. intros x Hx.
      destruct (parseInt param) as [|n|?]; [done| |done].
      simpl in *. apply Z.eqb_eq in Hy. apply Z.eqb_neq. intros Hid.
      rewrite Hs, map_app in Hnd. simpl in Hnd.
      apply List.NoDup_remove_2 in Hnd. apply Hnd.
      rewrite Hy, <- Hid, <- map_app. by apply in_map.
    - exists records. simpl. rewrite loaded_log. split; [done|].
      by apply findIndex_None. }
  destruct Hcase as (rs' & -> & Hnone).
  rewrite delete_record_resumed_Array.
  replace (findIndex _ _) with (@None nat); [done|].
  symmetry. by apply findIndex_None.
Qed.


(** ** File operations and the order of ids *)


(** X11: from a world whose data file holds the empty array, after any
    sequence of requests, passages of time and changes of the file system in
    which at most 2^53 requests are create requests, the stored ids are in
    strictly ascending order and at least 1. *)
Theorem ids_stay_ascending (h : host) (w0 : world) (es : list event) :
  (readRecords w0).1 = inr (Array []) ->
  Z.of_nat (creates es) <= 2 ^ 53 ->
  exists records,
    (readRecords (run h es w0)).1 = inr (Array records)
    /\ StronglySorted Z.lt (map id records)
    /\ Forall (fun r => 1 <= id r) records.
Proof.
  rewrite readRecords_loaded. intros [= H0] Hlen.
  destruct (run_ids_within h es 0 w0) as (rs & Hrs & Hs & Hb); [lia|lia| |].
  { exists []. rewrite H0. split_and!; [done|constructor|constructor]. }
  exists rs. rewrite readRecords_loaded, Hrs. split_and!; [done|done|].
  eapply Forall_impl; [exact Hb|]. simpl. lia.
Qed.


(** ** The shape of stored records *)

Lemma trimStart_head s :
  match trimStart s with
  | EmptyString => True
  | String c _ => is_white c = false
  end.
Proof.
  induction s as [|c s IH]; simpl; [done|].
  destruct (is_white c) eqn:E; [done|]. simpl. done.
Qed.

Lemma trimEnd_idempotent s : trimEnd (trimEnd s) = trimEnd s.
Proof.
  induction s as [|c s IH]; simpl; [done|].
  destruct (is_white c && is_empty (trimEnd s)) eqn:E; [done|].
  simpl. by rewrite IH, E.
Qed.

Lemma trimStart_trimEnd s :
  match s with EmptyString => True | String c _ => is_white c = false end ->
  trimStart (trimEnd s) = trimEnd s.
Proof.
  destruct s as [|c s]; simpl; [done|]. intros Hc. rewrite Hc. simpl.
  by rewrite Hc.
Qed.

Lemma trim_idempotent s : trim (trim s) = trim s.
Proof.
  unfold trim. rewrite trimStart_trimEnd by apply trimStart_head.
  apply trimEnd_idempotent.
Qed.

Lemma trim_no_white s : no_white s = true -> trim s = s.
Proof.
  intros H. unfold trim.
  assert (trimStart s = s) as ->.
  { destruct s as [|c s]; simpl in *; [done|].
    apply andb_true_iff in H as [H _]. apply negb_true_iff in H. by rewrite H. }
  induction s as [|c s IH]; simpl in *; [done|].
  apply andb_true_iff in H as [Hc H]. apply negb_true_iff in Hc.
  rewrite Hc. simpl. by rewrite IH.
Qed.

Lemma all_digits_no_white s : all_digits s = true -> no_white s = true.
Proof.
  induction s as [|c s IH]; simpl; [done|].
  intros [Hc Hs]%andb_true_iff. by rewrite (is_digit_not_white c Hc), IH.
Qed.

Lemma no_white_app a b : no_white (a +:+ b) = no_white a && no_white b.
Proof.
  induction a as [|c a IH]; [done|].
  rewrite string_app_cons. simpl. by rewrite IH, andb_assoc.
Qed.

Lemma phone_format_trim p : phone_format p -> trim p = p.
Proof.
  intros (ds & Hp & _ & Hd). apply trim_no_white.
  apply all_digits_no_white in Hd.
  destruct Hp as [-> | ->]; by rewrite no_white_app, Hd.
Qed.

Lemma created_written n v l p i t :
  rejects (body_of v l p i) = false ->
  written_by_server t t (created n t v l p i).
Proof.
  intros (_ & _ & _ & Hr)%rejects_false_texts. apply phonePattern_spec in Hr.
  unfold written_by_server, created. cbn [phone vendorName location issue date].
  rewrite !trim_idempotent, (phone_format_trim _ Hr).
  split_and!; try done. exists t. split; [lia|done].
Qed.

Lemma written_by_server_mono lo lo' hi hi' r :
  lo' <= lo -> hi <= hi' ->
  written_by_server lo hi r -> written_by_server lo' hi' r.
Proof.
  intros Hlo Hhi (? & ? & ? & ? & t & Ht & ?). split_and!; try done.
  exists t. split; [lia|done].
Qed.

Lemma handle_now h r w : now (handle h r w).2 = now w.
Proof.
  destruct r as [code random|auth|b|auth param|auth|].
  - cbn [handle]. destruct (dev_login_world code random w) as [-> | ->]; done.
  - apply handle_registry. congruence.
  - apply handle_registry. congruence.
  - apply handle_registry. congruence.
  - apply handle_registry. congruence.
  - done.
Qed.

(** What one request does to a stored array, with the record a create
    appends. *)
Lemma handle_store_cases h r w rs :
  loaded w = Array rs ->
  loaded (handle h r w).2 = Array rs
  \/ (exists v l p i,
        rejects (body_of v l p i) = false
        /\ loaded (handle h r w).2
           = Array (rs ++ [created (fresh_id rs) (now w) v l p i]))
  \/ (exists before x after,
        rs = before ++ x :: after
        /\ loaded (handle h r w).2 = Array (before ++ after)).
Proof.
  intros Hl.
  destruct r as [code random|auth|b|auth param|auth|]; cbn [handle].
  - left. destruct (dev_login_world code random w) as [-> | ->]; done.
  - left. destruct (checkDeveloperAuth_cases auth get_records w) as [-> | ->];
      [by rewrite get_records_world|done].
  - destruct (post_records_cases h b w)
      as [-> |[-> |(v & l & p & i & rs' & -> & Hb & Hl' & Hs & ->)]];
      [by left|by left|].
    rewrite Hl in Hl'. injection Hl' as <-.
    rewrite (post_records_resumed_texts h v l p i rs _ Hs).
    change (write_failure (log ReadFile w)) with (write_failure w).
    destruct (write_failure w); [by left|].
    right. left. by exists v, l, p, i.
  - destruct (checkDeveloperAuth_cases auth (delete_record param) w) as [-> | ->];
      [|by left].
    rewrite delete_record_eq, Hl, delete_record_resumed_Array.
    destruct (findIndex _ _) as [i|] eqn:Hf; [|by left].
    change (write_failure (log ReadFile w)) with (write_failure w).
    destruct (write_failure w); [by left|].
    apply findIndex_Some in Hf as (before & x & after & Hs & _ & _ & Hd).
    right. right. exists before, x, after. split; [done|].
    unfold loaded. simpl. by rewrite Hd.
  - left. destruct (checkDeveloperAuth_cases auth (get_stats h) w) as [-> | ->];
      [by rewrite get_stats_world|done].
  - by left.
Qed.

Lemma step_written h lo w e rs :
  lo <= now w ->
  loaded w = Array rs ->
  Forall (written_by_server lo (now w)) rs ->
  lo <= now (step h w e)
  /\ exists rs', loaded (step h w e) = Array rs'
                 /\ Forall (written_by_server lo (now (step h w e))) rs'.
Proof.
  intros Hlo Hl Hall. destruct e as [r|dt|e].
  - cbn [step]. rewrite handle_now. split; [done|].
    destruct (handle_store_cases h r w rs Hl)
      as [-> |[(v & l & p & i & Hb & ->)|(before & x & after & Hs & ->)]].
    + by exists rs.
    + eexists. split; [done|].
      apply Forall_app. split; [done|]. apply Forall_singleton.
      apply (written_by_server_mono (now w) lo (now w) (now w)); [lia|lia|].
      by apply created_written.
    + eexists. split; [done|].
      rewrite Hs in Hall. apply Forall_app in Hall as [H1 H2].
      apply Forall_app. split; [done|]. by inversion H2.
  - cbn [step]. rewrite elapse_now.
    change (loaded (elapse dt w)) with (loaded w). split; [lia|].
    exists rs. split; [done|].
    eapply Forall_impl; [exact Hall|]. intros r.
    apply written_by_server_mono; lia.
  - split; [done|]. by exists rs.
Qed.

Lemma run_written h lo es w rs :
  lo <= now w ->
  loaded w = Array rs ->
  Forall (written_by_server lo (now w)) rs ->
  lo <= now (run h es w)
  /\ exists rs', loaded (run h es w) = Array rs'
                 /\ Forall (written_by_server lo (now (run h es w))) rs'.
Proof.
  revert w rs. induction es as [|e es IH]; intros w rs Hlo Hl Hall.
  { split; [done|]. by exists rs. }
  destruct (step_written h lo w e rs Hlo Hl Hall) as (Hlo' & rs' & Hl' & Hall').
  apply (IH _ rs' Hlo' Hl' Hall').
Qed.

(** X10: from a world whose data file holds the empty array, every stored
    record has a phone in the accepted format, a vendor name, a location and
    an issue without white space at either end, and as date the ISO form of
    an instant between the start and the present. *)
Theorem stored_records_are_well_formed (h : host) (w0 : world) (es : list event) :
  (readRecords w0).1 = inr (Array []) ->
  exists records,
    (readRecords (run h es w0)).1 = inr (Array records)
    /\ Forall (written_by_server (now w0) (now (run h es w0))) records.
Proof.
  rewrite readRecords_loaded. intros [= H0].
  destruct (run_written h (now w0) es w0 [] ltac:(lia) H0 ltac:(constructor))
    as (_ & rs & Hl & Hall).
  exists rs. by rewrite readRecords_loaded, Hl.
Qed.
(** ** The calendar *)

Lemma civil_from_days_range z :
  1 <= (civil_from_days z).1.2 <= 12 /\ 1 <= (civil_from_days z).2 <= 31.
Proof.
  unfold civil_from_days. cbv zeta.
  set (z' := z + 719468).
  set (era := z' / 146097).
  set (doe := z' - era * 146097).
  assert (Hdoe : 0 <= doe <= 146096).
  { subst doe era. pose proof (Z.div_mod z' 146097 ltac:(lia)).
    pose proof (Z.mod_pos_bound z' 146097 ltac:(lia)). lia. }
  clearbody doe era. clear z'.
  set (yoe := (doe - doe / 1460 + doe / 36524 - doe / 146096) / 365).
  set (doy := doe - (365 * yoe + yoe / 4 - yoe / 100)).
  assert (Hdoy : 0 <= doy <= 365 /\ 0 <= yoe <= 399).
  { subst doy yoe. Z.to_euclidean_division_equations; lia. }
  clearbody doy yoe.
  set (mp := (5 * doy + 2) / 153).
  assert (0 <= mp <= 11 /\ 1 <= doy - (153 * mp + 2) / 5 + 1 <= 31).
  { subst mp. Z.to_euclidean_division_equations; lia. }
  cbn [fst snd].
  destruct (mp <? 10) eqn:E; [apply Z.ltb_lt in E|apply Z.ltb_ge in E]; lia.
Qed.

Lemma days_from_civil_from_days z :
  days_from_civil (civil_from_days z).1.1 (civil_from_days z).1.2
    (civil_from_days z).2 = z.
Proof.
  unfold civil_from_days. cbv zeta.
  set (z' := z + 719468).
  set (era := z' / 146097).
  set (doe := z' - era * 146097).
  assert (Hdoe : 0 <= doe <= 146096).
  { subst doe era. pose proof (Z.div_mod z' 146097 ltac:(lia)).
    pose proof (Z.mod_pos_bound z' 146097 ltac:(lia)). lia. }
  assert (Hz : z = era * 146097 + doe - 719468) by (subst doe z'; lia).
  clearbody doe era. clear z' . subst z.
  set (yoe := (doe - doe / 1460 + doe / 36524 - doe / 146096) / 365).
  set (doy := doe - (365 * yoe + yoe / 4 - yoe / 100)).
  assert (Hdoy : 0 <= doy <= 365 /\ 0 <= yoe <= 399).
  { subst doy yoe. Z.to_euclidean_division_equations; lia. }
  assert (Hdoe' : doe = 365 * yoe + yoe / 4 - yoe / 100 + doy) by (subst doy; lia).
  clearbody doy yoe. 
  set (mp := (5 * doy + 2) / 153).
  assert (Hmp : 0 <= mp <= 11) by (subst mp; Z.to_euclidean_division_equations; lia).
  clearbody mp.
  cbn [fst snd]. unfold days_from_civil.
  destruct (mp <? 10) eqn:E; [apply Z.ltb_lt in E|apply Z.ltb_ge in E].
  - replace (mp + 3 <=? 2) with false by (symmetry; apply Z.leb_gt; lia).
    replace (2 <? mp + 3) with true by (symmetry; apply Z.ltb_lt; lia).
    cbv zeta.
    replace ((yoe + era * 400) / 400) with era
      by (Z.to_euclidean_division_equations; lia).
    replace (mp + 3 - 3) with mp by lia.
    replace (yoe + era * 400 - era * 400) with yoe by lia. lia.
  - replace (mp - 9 <=? 2) with true by (symmetry; apply Z.leb_le; lia).
    replace (2 <? mp - 9) with false by (symmetry; apply Z.ltb_ge; lia).
    cbv zeta.
    replace ((yoe + era * 400 + 1 - 1) / 400) with era
      by (Z.to_euclidean_division_equations; lia).
    replace (mp - 9 + 9) with mp by lia.
    replace (yoe + era * 400 + 1 - 1 - era * 400) with yoe by lia. lia.
Qed.

Lemma year_in_four_digits t :
  -62167219200000 <= t <= 253402300799999 ->
  0 <= YearFromTime t <= 9999.
Proof.
  intros Ht. unfold YearFromTime, Day, msPerDay, civil_from_days. cbv zeta. cbn [fst snd].
  set (z := t / 86400000).
  assert (Hz : -719528 <= z <= 2932896).
  { subst z. Z.to_euclidean_division_equations; lia. }
  clearbody z. clear t Ht.
  set (z' := z + 719468).
  assert (Hz' : -60 <= z' <= 3652364) by (subst z'; lia). clearbody z'. clear z Hz.
  set (era := z' / 146097).
  set (doe := z' - era * 146097).
  assert (Hdoe : 0 <= doe <= 146096 /\ -1 <= era <= 24
                 /\ (era = -1 -> 146037 <= doe) /\ (era = 24 -> doe <= 146036)).
  { subst doe era. Z.to_euclidean_division_equations; lia. }
  clearbody doe era. clear z' Hz'.
  set (yoe := (doe - doe / 1460 + doe / 36524 - doe / 146096) / 365).
  set (doy := doe - (365 * yoe + yoe / 4 - yoe / 100)).
  assert (Hdoy : 0 <= doy <= 365 /\ 0 <= yoe <= 399
                 /\ (146037 <= doe -> yoe = 399 /\ 306 <= doy)
                 /\ (doe <= 146036 -> yoe < 399 \/ doy <= 305)).
  { subst doy yoe. Z.to_euclidean_division_equations; lia. }
  clearbody doy yoe.
  set (mp := (5 * doy + 2) / 153).
  assert (Hmp : 0 <= mp <= 11 /\ (306 <= doy -> 10 <= mp) /\ (doy <= 305 -> mp < 10)).
  { subst mp. Z.to_euclidean_division_equations; lia. }
  clearbody mp.
  destruct (mp <? 10) eqn:E; [apply Z.ltb_lt in E|apply Z.ltb_ge in E].
  - replace (mp + 3 <=? 2) with false by (symmetry; apply Z.leb_gt; lia). lia.
  - replace (mp - 9 <=? 2) with true by (symmetry; apply Z.leb_le; lia). lia.
Qed.

(** ** ISO strings are read back *)

Lemma string_length_app a b :
  String.length (a +:+ b) = (String.length a + String.length b)%nat.
Proof.
  induction a as [|c a IH]; [done|]. rewrite string_app_cons. simpl. by rewrite IH.
Qed.

Lemma all_digits_app a b : all_digits (a +:+ b) = all_digits a && all_digits b.
Proof.
  induction a as [|c a IH]; [done|].
  rewrite string_app_cons. simpl. by rewrite IH, andb_assoc.
Qed.

Lemma decimal_value_app acc a b :
  decimal_value acc (a +:+ b) = decimal_value (decimal_value acc a) b.
Proof.
  revert acc. induction a as [|c a IH]; intros acc; [done|].
  rewrite string_app_cons. simpl. by rewrite IH.
Qed.

Lemma zeros_digits n :
  let z := string_of_list_ascii (replicate n "0"%char) in
  all_digits z = true /\ String.length z = n /\ decimal_value 0 z = 0.
Proof.
  induction n as [|n (IH1 & IH2 & IH3)]; [done|].
  cbv zeta in *. change (replicate (S n) "0"%char) with ("0"%char :: replicate n "0"%char).
  cbn [string_of_list_ascii all_digits String.length decimal_value].
  rewrite IH1, IH2. split_and!; [done|done|].
  change (0 * 10 + (Z.of_N (code "0") - 48)) with 0. done.
Qed.

Lemma pretty_N_go_length k x s :
  (x < 10 ^ N.of_nat k)%N ->
  (String.length (pretty_N_go x s) <= k + String.length s)%nat.
Proof.
  revert x s. induction k as [|k IH]; intros x s Hx.
  - assert (x = 0%N) as -> by (simpl in Hx; lia). rewrite pretty_N_go_0. lia.
  - destruct (decide (x = 0%N)) as [->|Hne]; [rewrite pretty_N_go_0; lia|].
    rewrite pretty_N_go_step by lia.
    etrans; [apply IH|simpl; lia].
    rewrite Nat2N.inj_succ, N.pow_succ_r' in Hx.
    apply N.Div0.div_lt_upper_bound. lia.
Qed.

Lemma pretty_length k (v : Z) :
  (0 < k)%nat -> 0 <= v < 10 ^ Z.of_nat k -> (String.length (pretty v) <= k)%nat.
Proof.
  intros Hk Hv. destruct v as [|p|p]; [simpl; lia| |lia].
  unfold pretty, pretty_Z, pretty, pretty_positive, pretty, pretty_N.
  case_decide; [done|].
  etrans; [apply (pretty_N_go_length k)|simpl; lia].
  apply N2Z.inj_lt. rewrite N2Z.inj_pow, nat_N_Z. simpl. lia.
Qed.

(** [pad k v] is the [k] decimal digits of [v], when [v] has at most [k]. *)
Lemma pad_digits k v :
  (0 < k)%nat -> 0 <= v < 10 ^ Z.of_nat k ->
  all_digits (pad k v) = true /\ String.length (pad k v) = k
  /\ decimal_value 0 (pad k v) = v.
Proof.
  intros Hk Hv. unfold pad. rewrite Z.abs_eq by lia.
  destruct (pretty_nonneg_digits v) as (Hd & Hval & _); [lia|].
  pose proof (pretty_length k v Hk Hv) as Hlen.
  destruct (zeros_digits (k - String.length (pretty v))) as (Hz1 & Hz2 & Hz3).
  rewrite all_digits_app, string_length_app, decimal_value_app.
  rewrite Hz1, Hz2, Hz3, Hd, Hval. split_and!; [done|lia|done].
Qed.

Lemma read_number_digits ds rest acc :
  all_digits ds = true ->
  read_number (String.length ds) acc (ds +:+ rest)
  = Some (decimal_value acc ds, rest).
Proof.
  revert acc. induction ds as [|c ds IH]; intros acc Hd; [done|].
  simpl in Hd. apply andb_true_iff in Hd as [Hc Hd].
  rewrite string_app_cons. simpl. rewrite Hc. by apply IH.
Qed.

Lemma read_field_pad k v sep rest :
  (0 < k)%nat -> 0 <= v < 10 ^ Z.of_nat k ->
  read_field k sep (pad k v +:+ sep +:+ rest) = Some (v, rest).
Proof.
  intros Hk Hv. destruct (pad_digits k v Hk Hv) as (Hd & Hl & Hval).
  unfold read_field. rewrite <- Hl at 1.
  rewrite read_number_digits by done. rewrite Hval.
  by rewrite (proj2 (after_prefix_Some sep (sep +:+ rest) rest) eq_refl).
Qed.

Lemma time_within_day_fields w :
  w / 3600000 * 3600000 + w / 60000 mod 60 * 60000
  + w / 1000 mod 60 * 1000 + w mod 1000 = w.
Proof.
  pose proof (Z.div_mod w 1000 ltac:(lia)).
  pose proof (Z.div_mod (w / 1000) 60 ltac:(lia)).
  pose proof (Z.div_mod (w / 60000) 60 ltac:(lia)).
  assert (w / 60000 = w / 1000 / 60) by (rewrite Z.div_div by lia; reflexivity).
  assert (w / 3600000 = w / 60000 / 60) by (rewrite Z.div_div by lia; reflexivity).
  lia.
Qed.

(** The reader of ISO dates reads back what [toISOString] writes, for the
    years 0 to 9999. *)
Lemma iso_parse_toISOString t :
  -62167219200000 <= t <= 253402300799999 ->
  iso_parse (iso_of t) = Some t.
Proof.
  intros Ht. pose proof (year_in_four_digits t Ht) as Hy.
  unfold iso_of, toISOString.
  replace ((0 <=? YearFromTime t) && (YearFromTime t <=? 9999)) with true
    by (symmetry; apply andb_true_iff; split; apply Z.leb_le; lia).
  pose proof (civil_from_days_range (Day t)) as [Hm Hd].
  pose proof (days_from_civil_from_days (Day t)) as Hrt.
  fold (YearFromTime t) (MonthFromTime t) (DateFromTime t) in Hm, Hd, Hrt.
  set (w := TimeWithinDay t).
  assert (Hw : 0 <= w < 86400000) by (apply Z.mod_pos_bound; done).
  assert (Ht' : t = Day t * msPerDay + w).
  { unfold w, TimeWithinDay, Day, msPerDay. 
    pose proof (Z.div_mod t 86400000 ltac:(lia)). lia. }
  unfold iso_parse.
  change (pad 3 (w mod 1000) +:+ "Z")
    with (pad 3 (w mod 1000) +:+ "Z" +:+ "").
  do 7 (rewrite read_field_pad
          by (lia || (simpl; Z.to_euclidean_division_equations; lia));
        cbn [mbind option_bind]).
  cbn [is_empty andb].
  rewrite Hrt.
  replace ((1 <=? MonthFromTime t) && (MonthFromTime t <=? 12)
           && (1 <=? DateFromTime t) && (DateFromTime t <=? 31)
           && (w / 3600000 <? 24) && (w / 60000 mod 60 <? 60)
           && (w / 1000 mod 60 <? 60)) with true.
  - f_equal.
    pose proof (time_within_day_fields w) as Hsum.
    unfold msPerDay in *. lia.
  - symmetry. rewrite !andb_true_iff, !Z.leb_le, !Z.ltb_lt.
    Z.to_euclidean_division_equations; lia.
Qed.

(** ** Statistics *)

Lemma handle_GET_stats_eq h w auth :
  authorized w auth -> handle h (GET_stats auth) w = get_stats h w.
Proof. intros Ha. cbn [handle]. by rewrite checkDeveloperAuth_pass. Qed.

Lemma string_app_assoc a b c : (a +:+ b) +:+ c = a +:+ b +:+ c.
Proof.
  induction a as [|x a IH]; [done|]. rewrite !string_app_cons. by rewrite IH.
Qed.

Lemma string_app_inj_length a a' b b' :
  String.length a = String.length a' -> a +:+ b = a' +:+ b' -> a = a' /\ b = b'.
Proof.
  revert a'. induction a as [|c a IH]; intros [|c' a'] Hl; try done.
  rewrite !string_app_cons. simpl in Hl. intros [= -> H].
  destruct (IH a') as [-> ->]; [lia|done|done].
Qed.

Lemma slice_to_app n a b :
  (n <= String.length a)%nat -> slice_to n (a +:+ b) = slice_to n a.
Proof.
  revert a. induction n as [|n IH]; intros [|c a] Hl; simpl in Hl; try done; try lia.
  rewrite string_app_cons. simpl. rewrite IH; [done|lia].
Qed.

(** [pad k v] without a bound on [v]. *)
Lemma pad_any k v :
  all_digits (pad k v) = true /\ (k <= String.length (pad k v))%nat
  /\ decimal_value 0 (pad k v) = Z.abs v /\ (0 < String.length (pad k v))%nat.
Proof.
  unfold pad.
  destruct (pretty_nonneg_digits (Z.abs v)) as (Hd & Hval & Hne); [lia|].
  destruct (zeros_digits (k - String.length (pretty (Z.abs v)))) as (Hz1 & Hz2 & Hz3).
  rewrite all_digits_app, string_length_app, decimal_value_app.
  rewrite Hz1, Hz2, Hz3, Hd, Hval. split_and!; [done|lia|done|].
  destruct (pretty (Z.abs v)); [done|simpl; lia].
Qed.

Lemma dayName_length n : 0 <= n < 7 -> String.length (dayName n) = 3%nat.
Proof.
  intros Hn.
  assert (n = 0 \/ n = 1 \/ n = 2 \/ n = 3 \/ n = 4 \/ n = 5 \/ n = 6) as H by lia.
  destruct H as [->|[->|[->|[->|[->|[->| ->]]]]]]; done.
Qed.

Lemma monthName_inj m m' :
  1 <= m <= 12 -> 1 <= m' <= 12 ->
  String.length (monthName m) = 3%nat
  /\ (monthName m = monthName m' -> m = m').
Proof.
  intros Hm Hm'.
  assert (m = 1 \/ m = 2 \/ m = 3 \/ m = 4 \/ m = 5 \/ m = 6 \/ m = 7 \/ m = 8
          \/ m = 9 \/ m = 10 \/ m = 11 \/ m = 12) as H by lia.
  assert (m' = 1 \/ m' = 2 \/ m' = 3 \/ m' = 4 \/ m' = 5 \/ m' = 6 \/ m' = 7
          \/ m' = 8 \/ m' = 9 \/ m' = 10 \/ m' = 11 \/ m' = 12) as H' by lia.
  destruct H as [->|[->|[->|[->|[->|[->|[->|[->|[->|[->|[->| ->]]]]]]]]]]];
    (split; [done|]);
    destruct H' as [->|[->|[->|[->|[->|[->|[->|[->|[->|[->|[->| ->]]]]]]]]]]];
    done.
Qed.

(** The year as [toDateString] writes it. *)
Lemma signed_year_inj y y' :
  (if y <? 0 then "-" else "") +:+ pad 4 y
  = (if y' <? 0 then "-" else "") +:+ pad 4 y' -> y = y'.
Proof.
  destruct (pad_any 4 y) as (Hd & _ & Hv & Hl).
  destruct (pad_any 4 y') as (Hd' & _ & Hv' & Hl').
  destruct (Z.ltb_spec y 0), (Z.ltb_spec y' 0); intros Heq.
  - apply (inj (String.app _)) in Heq. rewrite Heq in Hv. lia.
  - change ("" +:+ pad 4 y') with (pad 4 y') in Heq. rewrite <- Heq in Hd'. done.
  - change ("" +:+ pad 4 y) with (pad 4 y) in Heq. rewrite Heq in Hd. done.
  - change (pad 4 y = pad 4 y') in Heq. rewrite Heq in Hv. lia.
Qed.

(** Two instants with the same [toDateString] are in the same year and
    month of the local calendar. *)
Lemma toDateString_year_month off t t' :
  toDateString off (Some t) = toDateString off (Some t') ->
  YearFromTime (t + off t) = YearFromTime (t' + off t')
  /\ MonthFromTime (t + off t) = MonthFromTime (t' + off t').
Proof.
  unfold toDateString. cbv zeta.
  set (lt := t + off t). set (lt' := t' + off t').
  pose proof (civil_from_days_range (Day lt)) as [Hm Hd].
  pose proof (civil_from_days_range (Day lt')) as [Hm' Hd'].
  fold (MonthFromTime lt) (DateFromTime lt) in Hm, Hd.
  fold (MonthFromTime lt') (DateFromTime lt') in Hm', Hd'.
  intros H.
  apply string_app_inj_length in H as [_ H]; cycle 1.
  { rewrite !dayName_length; [done|apply Z.mod_pos_bound; done..]. }
  apply (inj (String.app _)) in H.
  destruct (monthName_inj _ _ Hm Hm') as [Hl Hinj].
  destruct (monthName_inj _ _ Hm' Hm) as [Hl' _].
  apply string_app_inj_length in H as [Hmn H]; [|by rewrite Hl, Hl'].
  apply Hinj in Hmn. split; [|done].
  apply (inj (String.app _)) in H.
  apply string_app_inj_length in H as [_ H]; cycle 1.
  { destruct (pad_digits 2 (DateFromTime lt)) as (_ & -> & _); [lia|simpl; lia|].
    destruct (pad_digits 2 (DateFromTime lt')) as (_ & -> & _); [lia|simpl; lia|].
    done. }
  apply (inj (String.app _)) in H. by apply signed_year_inj.
Qed.

Lemma slice_year_month Y M R :
  (4 <= String.length Y)%nat -> (2 <= String.length M)%nat ->
  slice_to 7 (Y +:+ "-" +:+ M +:+ R) = slice_to 7 (Y +:+ "-" +:+ M).
Proof.
  intros HY HM.
  rewrite <- (string_app_assoc "-" M R), <- (string_app_assoc Y ("-" +:+ M) R).
  apply slice_to_app. rewrite !string_length_app. simpl. lia.
Qed.

(** The first seven characters of the ISO string are fixed by the UTC year
    and month. *)
Lemma iso_month_prefix t t' :
  YearFromTime t = YearFromTime t' -> MonthFromTime t = MonthFromTime t' ->
  slice_to 7 (iso_of t) = slice_to 7 (iso_of t').
Proof.
  intros Hy Hm. unfold iso_of, toISOString. rewrite <- Hy, <- Hm.
  set (year := if (0 <=? YearFromTime t) && (YearFromTime t <=? 9999)
               then pad 4 (YearFromTime t)
               else (if YearFromTime t <? 0 then "-" else "+") +:+ pad 6 (YearFromTime t)).
  assert (Hlen : (4 <= String.length year)%nat).
  { subst year. destruct (_ && _).
    - by destruct (pad_any 4 (YearFromTime t)) as (_ & ? & _).
    - destruct (pad_any 6 (YearFromTime t)) as (_ & ? & _).
      rewrite string_length_app. lia. }
  destruct (pad_any 2 (MonthFromTime t)) as (_ & HM & _).
  by rewrite !slice_year_month.
Qed.

Lemma same_day_same_month h t r :
  (forall x, localOffset h x = 0) ->
  new_Date h (date r) <> None ->
  same_local_day h t r = true -> same_utc_month h t r = true.
Proof.
  intros Hoff Hv. destruct (new_Date h (date r)) as [tr|] eqn:Hd; [|done].
  rewrite (same_local_day_valid h t r tr Hd), (same_utc_month_valid h t r tr Hd).
  intros Hs%bool_decide_eq_true_1. apply bool_decide_eq_true_2.
  apply toDateString_year_month in Hs as [Hy Hm].
  rewrite !Hoff, !Z.add_0_r in Hy, Hm. by apply iso_month_prefix.
Qed.

Lemma filter_length_le {A} (p q : A -> bool) l :
  (forall x, In x l -> p x = true -> q x = true) ->
  (length (List.filter p l) <= length (List.filter q l) <= length l)%nat.
Proof.
  induction l as [|a l IH]; intros H; simpl; [lia|].
  destruct IH as [IH1 IH2]; [intros x Hx; apply H; by right|].
  pose proof (H a (or_introl eq_refl)) as Ha.
  destruct (p a), (q a); simpl; lia.
Qed.

(** X17: when the file holds an array and every stored date is read by
    [Date.parse], an authorized stats
    request answers 200 with the number of records, the number of those on the
    local calendar day of the request and the number of those in its UTC
    calendar month, and it only reads the file. *)
Theorem stats_count_local_day_and_utc_month (h : host) (w : world)
    (auth : option string) (records : list record) :
  authorized w auth ->
  (readRecords w).1 = inr (Array records) ->
  Forall (fun r => new_Date h (date r) <> None) records ->
  (handle h (GET_stats auth) w).1
  = inr {| status := 200;
           body :=
             Stats (Z.of_nat (length records))
               (Z.of_nat (length (List.filter (same_local_day h (now w)) records)))
               (Z.of_nat (length (List.filter (same_utc_month h (now w)) records))) |}
  /\ (handle h (GET_stats auth) w).2 = log ReadFile w.
Proof.
  intros Ha. rewrite readRecords_loaded. intros [= Hl] Hall.
  rewrite handle_GET_stats_eq by done.
  by rewrite (get_stats_counts h w records), get_stats_world.
Qed.

(** X18: on a host whose local time is UTC, the stats never count more records
    in [today] than in [thisMonth], nor more in [thisMonth] than in [total]. *)
Theorem on_a_utc_host_today_is_within_this_month (h : host) (w : world)
    (auth : option string) (records : list record) :
  (forall t, localOffset h t = 0) ->
  authorized w auth ->
  (readRecords w).1 = inr (Array records) ->
  Forall (fun r => new_Date h (date r) <> None) records ->
  exists today thisMonth,
    (handle h (GET_stats auth) w).1
    = inr {| status := 200;
             body := Stats (Z.of_nat (length records)) today thisMonth |}
    /\ 0 <= today <= thisMonth
    /\ thisMonth <= Z.of_nat (length records).
Proof.
  intros Hoff Ha. rewrite readRecords_loaded. intros [= Hl] Hall.
  rewrite handle_GET_stats_eq by done.
  rewrite (get_stats_counts h w records) by done.
  eexists _, _. split; [done|].
  destruct (filter_length_le (same_local_day h (now w)) (same_utc_month h (now w))
              records) as [H1 H2]; [|lia].
  intros r Hr. apply same_day_same_month; [done|].
  rewrite Forall_forall in Hall. by apply Hall, list_elem_of_In.
Qed.

(** X19: from a world whose data file holds the empty array, on a host
    whose [Date.parse] reads the ISO strings of the instants since the
    start, an authorized stats request is answered 200: the records the
    server wrote itself never make it fail. *)
Theorem stats_succeed_on_own_records (h : host) (w0 : world) (es : list event)
    (auth : option string) :
  (readRecords w0).1 = inr (Array []) ->
  authorized (run h es w0) auth ->
  (forall t s, now w0 <= t <= now (run h es w0) ->
               toISOString (Some t) = inr s -> new_Date h s <> None) ->
  exists total today thisMonth,
    (handle h (GET_stats auth) (run h es w0)).1
    = inr {| status := 200; body := Stats total today thisMonth |}.
Proof.
  rewrite readRecords_loaded. intros [= H0] Ha Hhost.
  rewrite handle_GET_stats_eq by done.
  destruct (run_written h (now w0) es w0 [] ltac:(lia) H0 ltac:(constructor))
    as (_ & rs & Hl & Hall).
  rewrite (get_stats_counts h _ rs Hl); [by eexists _, _, _|].
  eapply Forall_impl; [exact Hall|].
  intros r (_ & _ & _ & _ & t & Ht & Hd). by apply (Hhost t).
Qed.

Lemma host_utc_reads_iso t s :
  -62167219200000 <= t <= 253402300799999 ->
  toISOString (Some t) = inr s -> new_Date host_utc s = Some t.
Proof.
  intros Ht. rewrite toISOString_Some. intros [= <-].
  unfold new_Date. cbn [Date_parse host_utc].
  rewrite iso_parse_toISOString by done.
  unfold TimeClip. replace (Z.abs t <=? 8640000000000000) with true; [done|].
  symmetry. apply Z.leb_le. lia.
Qed.

Lemma stats_succeed_on_own_records_witness :
  exists total today thisMonth,
    (handle host_utc (GET_stats a_header)
       (run host_utc a_day (boot late_october Missing))).1
    = inr {| status := 200; body := Stats total today thisMonth |}.
Proof.
  apply (stats_succeed_on_own_records host_utc (boot late_october Missing) a_day a_header).
  - reflexivity.
  - exists a_token. split; [reflexivity|]. split; [discriminate|].
    vm_compute. reflexivity.
  - intros t s Ht Hs.
    rewrite (host_utc_reads_iso t s); [discriminate| |exact Hs].
    change (now (boot late_october Missing)) with 1793487600000 in Ht.
    change (now (run host_utc a_day (boot late_october Missing)))
      with 1793527200000 in Ht.
    lia.
Defined.

(** ** Expiry of tokens *)

Lemma step_every_token_expires h w e :
  every_token_expires w -> every_token_expires (step h w e).
Proof.
  intros Hw.
  destruct (step_cases h w e) as [(Hn & Hv & Ht)|[(random & Hn & Hv & Ht)|[dt ->]]].
  - unfold every_token_expires. by rewrite Hv, Ht.
  - unfold every_token_expires. rewrite Hv, Ht.
    intros tok [->%elem_of_singleton|Hin]%elem_of_union.
    + eexists. apply in_app_iff. right. by left.
    + destruct (Hw tok Hin) as [due Hd]. exists due. apply in_app_iff. by left.
  - intros tok [Hin Hnot]%elapse_tokens.
    destruct (Hw tok Hin) as [due Hd]. exists due.
    apply elapse_timers. split; [done|]. simpl.
    destruct (Z.lt_ge_cases (now w + Z.of_N dt) due) as [|Hle]; [done|].
    by destruct (Hnot _ Hd Hle).
Qed.

Lemma run_every_token_expires h es w :
  every_token_expires w -> every_token_expires (run h es w).
Proof.
  revert w. induction es as [|e es IH]; intros w Hw; [done|].
  apply IH. by apply step_every_token_expires.
Qed.

Lemma boot_every_token_expires t0 d : every_token_expires (boot t0 d).
Proof.
  intros tok Hin. exfalso. revert Hin.
  unfold boot, initializeDataFile, try_catch, fs_access, fs_writeFile.
  destruct d; simpl; apply not_elem_of_empty.
Qed.

(** X6: once 24 hours pass in one go, no token is valid and no timeout is
    pending, whatever happened before. *)
Theorem a_day_without_login_empties_the_registry (h : host) (t0 : Z) (d : disk)
    (es : list event) (dt : N) :
  token_lifetime <= Z.of_N dt ->
  let w := run h (es ++ [Elapse dt]) (boot t0 d) in
  (forall tok, (validTokens_has tok w).1 = inr false)
  /\ timers w = [].
Proof.
  intros Hdt. cbv zeta. unfold run. rewrite foldl_app. simpl.
  fold (run h es (boot t0 d)). set (w := run h es (boot t0 d)).
  assert (Hok : registry_ok w) by apply run_registry_ok, boot_registry_ok.
  assert (Hex : every_token_expires w)
    by apply run_every_token_expires, boot_every_token_expires.
  destruct Hok as [_ Htim]. split.
  - intros tok. simpl. f_equal. apply bool_decide_eq_false_2.
    intros [Hin Hnot]%elapse_tokens.
    destruct (Hex tok Hin) as [due Hd].
    apply (Hnot _ Hd); [|done]. simpl.
    destruct (Htim _ _ Hd) as [_ Hb]. lia.
  - destruct (timers (elapse dt w)) as [|[due tok] l] eqn:E; [done|].
    assert (Hin : In (due, tok) (timers (elapse dt w))) by (rewrite E; by left).
    apply elapse_timers in Hin as [Hin Hlt]. simpl in Hlt.
    destruct (Htim _ _ Hin) as [_ Hb]. lia.
Qed.

(** X5: after a login with a listed code, a privileged request carrying the
    token is answered by its operation while less than 24 hours have passed since
    the login, and by 401, with nothing read or changed, from then on. *)
Theorem a_login_opens_a_session_of_24_hours (h : host) (t0 : Z) (d : disk)
    (before after : list event) (code random : string) (r : request)
    (operation : M response) :
  In code DEVELOPER_CODES ->
  let w0 := run h before (boot t0 d) in
  let token := make_token (now w0) random in
  privileged h r = Some (Some ("Bearer " +:+ token), operation) ->
  let w1 := (handle h (POST_dev_login (Value.Text code) random) w0).2 in
  let w2 := run h after w1 in
  (now w2 < now w0 + token_lifetime -> handle h r w2 = operation w2)
  /\ (now w0 + token_lifetime <= now w2 ->
      handle h r w2
      = (inr {| status := 401;
                body := Message "Unauthorized - Developer access required" |}, w2)).
Proof.
  intros Hc w0 token Hp w1 w2.
  assert (Hok0 : registry_ok w0) by apply run_registry_ok, boot_registry_ok.
  assert (Hw1 : w1 = set_timers (timers w0 ++ [(now w0 + token_lifetime, token)])
                       (set_tokens ({[token]} ∪ validTokens w0) w0)).
  { subst w1. cbn [handle]. by rewrite (dev_login_accepts _ _ _ Hc). }
  assert (Hok1 : registry_ok w1).
  { apply (step_registry_ok h w0 (Request (POST_dev_login (Value.Text code) random)) Hok0). }
  assert (Ht1 : tracks (now w0) token w1).
  { rewrite Hw1. pose proof token_lifetime_pos. split_and!; simpl.
    - done.
    - intros _. split; [apply elem_of_union; left; by apply elem_of_singleton|].
      apply in_app_iff. right. by left.
    - lia. }
  destruct (run_tracks h (now w0) random after w1 Hok1 Ht1) as (_ & Hlive & Hdead).
  fold w2 in Hlive, Hdead.
  assert (Hh : handle h r w2
               = checkDeveloperAuth (Some ("Bearer " +:+ token)) operation w2).
  { destruct r; simpl in Hp; try done; by injection Hp as <- <-. }
  rewrite Hh. split.
  - intros Hlt. apply checkDeveloperAuth_pass. exists token.
    split; [done|]. split; [apply make_token_nonempty|by apply Hlive].
  - intros Hge. unfold checkDeveloperAuth. rewrite bearer_token_Bearer.
    unfold bind, validTokens_has.
    rewrite bool_decide_eq_false_2 by (by apply Hdead).
    cbn [falsy negb]. by rewrite orb_true_r.
Qed.

(** ** Identifiers, phones and the client *)

Lemma phone_format_length p :
  phone_format p -> String.length p = 13%nat \/ String.length p = 10%nat.
Proof.
  intros (ds & [-> | ->] & Hl & _); rewrite string_length_app, Hl; simpl; auto.
Qed.

(** X9: the pattern of the create handler accepts exactly +233 or 0 followed by
    nine digits; an accepted phone has 13 or 10 characters and is stored as it
    was sent, since trimming does not change it. *)
Theorem phone_test_accepts_exactly_the_format (s : string) :
  (regex_test phonePattern s = true <-> phone_format s)
  /\ (regex_test phonePattern s = true ->
      trim s = s /\ (String.length s = 13%nat \/ String.length s = 10%nat)).
Proof.
  split; [apply phonePattern_spec|].
  intros H%phonePattern_spec. split; [by apply phone_format_trim|].
  by apply phone_format_length.
Qed.

(** X20: the client's [login] stores the token of a successful reply under
    [ecg_token] (the text undefined when the reply has none) and [authHeaders]
    then sends it after Bearer, unless it is empty; a failed login leaves the
    storage as it was; after [logout] no header is sent; no other key of the
    storage is ever changed. *)
Theorem client_keeps_the_token_of_the_last_successful_login
    (res : Client.reply) (ls : gmap string string) :
  match Client.login res ls with
  | (inr token, ls') =>
      res = Client.Reply true (Some token)
      /\ ls' !! "ecg_token"%string = Some (ToString token)
      /\ Client.authHeaders ls'
         = (if is_empty (ToString token) then None
            else Some ("Bearer " +:+ ToString token))
  | (inl _, ls') => ls' = ls
  end
  /\ Client.authHeaders (Client.logout ls) = None
  /\ Client.authHeaders (Client.logout (Client.login res ls).2) = None
  /\ forall k, k <> "ecg_token"%string ->
       (Client.login res ls).2 !! k = ls !! k /\ Client.logout ls !! k = ls !! k.
Proof.
  split_and!.
  - destruct res as [|[] [token|]]; simpl; try done.
    unfold Client.authHeaders. rewrite lookup_insert_eq.
    split_and!; try done. simpl. by destruct (is_empty _).
  - unfold Client.authHeaders, Client.logout. by rewrite lookup_delete_eq.
  - unfold Client.authHeaders, Client.logout. by rewrite lookup_delete_eq.
  - intros k Hk. split.
    + destruct res as [|[] [token|]]; simpl; try done.
      by rewrite lookup_insert_ne.
    + unfold Client.logout. by rewrite lookup_delete_ne.
Qed.

(** X21: the header that [authHeaders] builds from a stored, non-empty token
    is one from which the server's middleware reads that token back; on a
    privileged route it is accepted exactly when the token is in the registry. *)
Theorem client_header_is_read_back_by_the_server (h : host) (w : world)
    (ls : gmap string string) (token : string) (r : request)
    (operation : M response) :
  ls !! "ecg_token"%string = Some token ->
  token <> ""%string ->
  privileged h r = Some (Client.authHeaders ls, operation) ->
  bearer_token (Client.authHeaders ls) = Some token
  /\ handle h r w
     = (if bool_decide (token ∈ validTokens w) then operation w
        else (inr {| status := 401;
                     body := Message "Unauthorized - Developer access required" |},
              w)).
Proof.
  intros Hls Hne Hp.
  assert (Hh : Client.authHeaders ls = Some ("Bearer " +:+ token)).
  { unfold Client.authHeaders. rewrite Hls. by destruct token. }
  rewrite Hh in *. split; [done|].
  assert (Hr : handle h r w
               = checkDeveloperAuth (Some ("Bearer " +:+ token)) operation w).
  { destruct r; simpl in Hp; try done; by injection Hp as <- <-. }
  rewrite Hr. case_bool_decide as Hin.
  - apply checkDeveloperAuth_pass. by exists token.
  - unfold checkDeveloperAuth. rewrite bearer_token_Bearer.
    unfold bind, validTokens_has. rewrite bool_decide_eq_false_2 by done.
    cbn [falsy negb]. by rewrite orb_true_r.
Qed.

(** ** The further properties on concrete inputs *)


Lemma logins_share_a_token_only_at_the_same_instant_witness :
  now (boot late_october Missing) = now (world_with [])
  /\ "k3j9x"%string = "k3j9x"%string.
Proof.
  apply (logins_share_a_token_only_at_the_same_instant
           (Value.Text "letmein") (Value.Text "ECG-DEV-ADMIN-001") "k3j9x" "k3j9x"
           a_token (boot late_october Missing) (world_with [])).
  - vm_compute. reflexivity.
  - vm_compute. reflexivity.
Defined.

Lemma a_login_opens_a_session_of_24_hours_witness :
  let w0 := run host_utc [] (boot late_october Missing) in
  let w1 := (handle host_utc
               (POST_dev_login (Value.Text "letmein") "k3j9x"%string) w0).2 in
  let w2 := run host_utc [Elapse 3600000] w1 in
  (now w2 < now w0 + token_lifetime ->
   handle host_utc (GET_records a_header) w2 = get_records w2)
  /\ (now w0 + token_lifetime <= now w2 ->
      handle host_utc (GET_records a_header) w2
      = (inr {| status := 401;
                body := Message "Unauthorized - Developer access required" |}, w2)).
Proof.
  apply (a_login_opens_a_session_of_24_hours host_utc late_october Missing []
           [Elapse 3600000] "letmein" "k3j9x" (GET_records a_header) get_records).
  - left. reflexivity.
  - reflexivity.
Defined.

Lemma a_day_without_login_empties_the_registry_witness :
  let w := run host_utc (a_day ++ [Elapse 86400000]) (boot late_october Missing) in
  (forall tok, (validTokens_has tok w).1 = inr false) /\ timers w = [].
Proof.
  apply (a_day_without_login_empties_the_registry host_utc late_october Missing
           a_day 86400000).
  vm_compute. discriminate.
Defined.

Lemma list_returns_the_stored_collection_witness :
  let w := world_with [record_of 1 "2026-10-31T23:00:00.000Z"] in
  let first := handle host_utc (GET_records a_header) w in
  let second := handle host_utc (GET_records a_header) first.2 in
  first.1 = inr {| status := 200;
                   body := Records (Array [record_of 1 "2026-10-31T23:00:00.000Z"]) |}
  /\ second.1 = first.1
  /\ file second.2 = file w
  /\ io_log second.2 = io_log w ++ [ReadFile; ReadFile].
Proof.
  apply (list_returns_the_stored_collection host_utc
           (world_with [record_of 1 "2026-10-31T23:00:00.000Z"]) a_header).
  - apply world_with_authorized.
  - reflexivity.
Defined.

(** The handler has loaded the record 1; by the time it writes, the file
    holds the records 1 and 2: the record 2 is lost. *)
Lemma create_then_list_witness :
  let loaded_before := [record_of 1 "2026-10-31T22:00:00.000Z"] in
  let w := world_with [record_of 1 "2026-10-31T22:00:00.000Z";
                       record_of 2 "2026-10-31T22:30:00.000Z"] in
  let out := post_records_resumed host_utc kofi (Array loaded_before) w in
  exists r,
    out.1 = inr {| status := 201; body := Created "Record created successfully" r |}
    /\ (handle host_utc (GET_records a_header) out.2).1
       = inr {| status := 200; body := Records (Array (loaded_before ++ [r])) |}.
Proof.
  apply (create_then_list host_utc
           (world_with [record_of 1 "2026-10-31T22:00:00.000Z";
                        record_of 2 "2026-10-31T22:30:00.000Z"])
           " Kofi " "Kumasi" "+233241234567" "Meter fault" a_header
           [record_of 1 "2026-10-31T22:00:00.000Z"]).
  - apply world_with_authorized.
  - unfold spreadable. simpl. lia.
  - reflexivity.
Defined.

Lemma stored_records_are_well_formed_witness :
  exists records,
    (readRecords (run host_utc a_busy_hour (boot late_october Missing))).1
    = inr (Array records)
    /\ Forall (written_by_server (now (boot late_october Missing))
                 (now (run host_utc a_busy_hour (boot late_october Missing))))
         records
    /\ length records = 2%nat.
Proof.
  destruct (stored_records_are_well_formed host_utc (boot late_october Missing)
              a_busy_hour) as (records & Hr & Hall).
  - reflexivity.
  - exists records. split; [exact Hr|]. split; [exact Hall|].
    vm_compute in Hr. injection Hr as <-. reflexivity.
Defined.

Lemma ids_stay_ascending_witness :
  exists records,
    (readRecords (run host_utc a_busy_hour (boot late_october Missing))).1
    = inr (Array records)
    /\ StronglySorted Z.lt (map id records)
    /\ Forall (fun r => 1 <= id r) records
    /\ map id records = [2; 3].
Proof.
  destruct (ids_stay_ascending host_utc (boot late_october Missing) a_busy_hour)
    as (records & Hr & Hs & Hb).
  - reflexivity.
  - vm_compute. discriminate.
  - exists records. split; [exact Hr|]. split; [exact Hs|]. split; [exact Hb|].
    vm_compute in Hr. injection Hr as <-. reflexivity.
Defined.


Lemma create_then_delete_restores_witness :
  let records := [record_of 1 "2026-10-31T23:00:00.000Z";
                  record_of 4 "2026-10-31T23:00:00.000Z"] in
  let w := world_with records in
  let posted := handle host_utc (POST_records kofi) w in
  exists r,
    posted.1
      = inr {| status := 201; body := Created "Record created successfully" r |}
    /\ let out := handle host_utc (DELETE_records a_header (pretty (id r))) posted.2 in
       out.1 = inr {| status := 200; body := Message "Record deleted successfully" |}
       /\ (readRecords out.2).1 = inr (Array records)
       /\ forall v' l' p' i',
            rejects (body_of v' l' p' i') = false ->
            exists r',
              (handle host_utc (POST_records (body_of v' l' p' i')) out.2).1
                = inr {| status := 201;
                         body := Created "Record created successfully" r' |}
              /\ id r' = id r.
Proof.
  apply (create_then_delete_restores host_utc
           (world_with [record_of 1 "2026-10-31T23:00:00.000Z";
                        record_of 4 "2026-10-31T23:00:00.000Z"])
           " Kofi " "Kumasi" "+233241234567" "Meter fault" a_header).
  - apply world_with_authorized.
  - reflexivity.
  - reflexivity.
  - repeat constructor; unfold safe; simpl; lia.
  - unfold spreadable. simpl. lia.
  - reflexivity.
Defined.

Lemma second_delete_is_not_found_witness :
  let w := world_with [record_of 1 "2026-10-31T23:00:00.000Z";
                       record_of 2 "2026-10-31T23:00:00.000Z"] in
  let first := handle host_utc (DELETE_records a_header "2") w in
  handle host_utc (DELETE_records a_header "2") first.2
  = (inr {| status := 404; body := Message "Record not found" |},
     log ReadFile first.2).
Proof.
  apply (second_delete_is_not_found host_utc
           (world_with [record_of 1 "2026-10-31T23:00:00.000Z";
                        record_of 2 "2026-10-31T23:00:00.000Z"])
           a_header "2"
           [record_of 1 "2026-10-31T23:00:00.000Z";
            record_of 2 "2026-10-31T23:00:00.000Z"]).
  - apply world_with_authorized.
  - reflexivity.
  - simpl. constructor.
    + intros [H|[]]. discriminate H.
    + constructor; [intros []|constructor].
  - reflexivity.
Defined.

Lemma stats_count_local_day_and_utc_month_witness :
  let w := world_with [record_of 1 "2026-10-31T23:00:00.000Z"] in
  let records := [record_of 1 "2026-10-31T23:00:00.000Z"] in
  (handle host_plus2h (GET_stats a_header) w).1
  = inr {| status := 200;
           body :=
             Stats (Z.of_nat (length records))
               (Z.of_nat (length (List.filter (same_local_day host_plus2h (now w))
                                    records)))
               (Z.of_nat (length (List.filter (same_utc_month host_plus2h (now w))
                                    records))) |}
  /\ (handle host_plus2h (GET_stats a_header) w).2 = log ReadFile w.
Proof.
  apply (stats_count_local_day_and_utc_month host_plus2h
           (world_with [record_of 1 "2026-10-31T23:00:00.000Z"]) a_header).
  - apply world_with_authorized.
  - reflexivity.
  - apply Forall_singleton. vm_compute. discriminate.
Defined.

Lemma on_a_utc_host_today_is_within_this_month_witness :
  exists today thisMonth,
    (handle host_utc (GET_stats a_header)
       (world_with [record_of 1 "2026-10-31T23:00:00.000Z"])).1
    = inr {| status := 200;
             body := Stats (Z.of_nat (length [record_of 1 "2026-10-31T23:00:00.000Z"]))
                       today thisMonth |}
    /\ 0 <= today <= thisMonth
    /\ thisMonth <= Z.of_nat (length [record_of 1 "2026-10-31T23:00:00.000Z"]).
Proof.
  apply (on_a_utc_host_today_is_within_this_month host_utc
           (world_with [record_of 1 "2026-10-31T23:00:00.000Z"]) a_header).
  - intros t. reflexivity.
  - apply world_with_authorized.
  - reflexivity.
  - apply Forall_singleton. vm_compute. discriminate.
Defined.

Lemma client_header_is_read_back_by_the_server_witness :
  let ls : gmap string string := {["ecg_token"%string := a_token]} in
  bearer_token (Client.authHeaders ls) = Some a_token
  /\ handle host_utc (GET_records (Client.authHeaders ls)) (world_with [])
     = (if bool_decide (a_token ∈ validTokens (world_with []))
        then get_records (world_with [])
        else (inr {| status := 401;
                     body := Message "Unauthorized - Developer access required" |},
              world_with [])).
Proof.
  apply (client_header_is_read_back_by_the_server host_utc (world_with [])
           {["ecg_token"%string := a_token]} a_token
           (GET_records (Client.authHeaders {["ecg_token"%string := a_token]}))
           get_records).
  - apply lookup_singleton_eq.
  - discriminate.
  - reflexivity.
Defined.
